(** * Working memory of mcp-elvis-simple: a bounded store with value-based eviction

    Shallow embedding of [src/working-memory.js] (class [WorkingMemory]) and of
    the cases of the request handler in [src/index.js] that use the store,
    followed by the properties of the store: capacity bound, eviction choice,
    scoring formula, access accounting, clearing, identifiers, normalisation
    of inserted data, and by the properties of its callers.

    Conventions of the embedding.
    - A JavaScript number is a [JS.number]: a real (finite doubles idealised,
      no rounding and no overflow) or [NaN].
    - A timestamp is the integer number of milliseconds since the epoch.  The
      source stores [new Date().toISOString()] and reads it back with
      [new Date(s).getTime()]; this round trip is the identity on the
      millisecond value, so the field holds that value.
    - The wall clock and the random generator are an explicit environment
      [Env]; every [Date.now()], [new Date()] and [Math.random()] of the source
      is one read of it, in the order the source performs them.
    - A string is a Rocq [string], one character per UTF-16 code unit.
    - The capacity and the priorities are integers, as the specification
      has them.
    - The object [this] is passed explicitly and returned updated. *)

From Stdlib Require Import List String Ascii ZArith Reals Lra Lia Bool.
From Stdlib Require Import DecimalString.
From Stdlib Require DecimalZ DecimalPos.
Import ListNotations.

Open Scope string_scope.
Open Scope Z_scope.

(* ================================================================== *)
(** ** The fragment of JavaScript used by the class *)

Module JS.

(** Numbers.  Results that IEEE arithmetic makes infinite (division by zero,
    logarithm of zero) lie outside the idealisation and are mapped to [NaN];
    the class never reaches them: it divides by the constants 3600000 and 7
    only, and takes the logarithm of [accessCount + 1 >= 1]. *)
Inductive number : Type :=
| Num (r : R)
| NaN.

Definition of_Z (z : Z) : number := Num (IZR z).

Definition lift2 (f : R -> R -> R) (a b : number) : number :=
  match a, b with
  | Num x, Num y => Num (f x y)
  | _, _ => NaN
  end.

Definition add : number -> number -> number := lift2 Rplus.
Definition sub : number -> number -> number := lift2 Rminus.
Definition mul : number -> number -> number := lift2 Rmult.

Definition div (a b : number) : number :=
  match a, b with
  | Num x, Num y => if Req_dec_T y 0 then NaN else Num (x / y)
  | _, _ => NaN
  end.

Definition neg (a : number) : number :=
  match a with
  | Num x => Num (- x)
  | NaN => NaN
  end.

(** [Math.exp] and [Math.log]. *)
Definition Math_exp (a : number) : number :=
  match a with
  | Num x => Num (exp x)
  | NaN => NaN
  end.

Definition Math_log (a : number) : number :=
  match a with
  | Num x => if Rlt_dec 0 x then Num (ln x) else NaN
  | NaN => NaN
  end.

(** [Math.max] and [Math.min] on integers. *)
Definition Math_max (a b : Z) : Z := Z.max a b.
Definition Math_min (a b : Z) : Z := Z.min a b.

(** The relational operators [<] and [<=]: false as soon as an operand is
    [NaN]. *)
Definition lt (a b : number) : Prop :=
  match a, b with
  | Num x, Num y => (x < y)%R
  | _, _ => False
  end.

Definition le (a b : number) : Prop :=
  match a, b with
  | Num x, Num y => (x <= y)%R
  | _, _ => False
  end.

Definition is_number (a : number) : Prop :=
  match a with
  | Num _ => True
  | NaN => False
  end.

(** Values that a property read can produce here: [undefined], a number, or
    an object (functions included), named for reference. *)
Inductive value : Type :=
| VUndefined
| VNumber (n : number)
| VObject (name : string).

Definition ToBoolean (v : value) : bool :=
  match v with
  | VUndefined => false
  | VNumber (Num r) => if Req_dec_T r 0 then false else true
  | VNumber NaN => false
  | VObject _ => true
  end.

(** [ToNumber]: an object is converted through its string form
    (["function Object() { [native code] }"], ["[object Object]"]), which is
    not numeric. *)
Definition ToNumber (v : value) : number :=
  match v with
  | VUndefined => NaN
  | VNumber n => n
  | VObject _ => NaN
  end.

(** [a || b]. *)
Definition or (a b : value) : value :=
  if ToBoolean a then a else b.

(** Objects used as tables: own properties, then the prototype chain.  An
    object literal inherits from [Object.prototype]. *)
Definition properties : Type := list (string * value).

Fixpoint own (o : properties) (key : string) : option value :=
  match o with
  | [] => None
  | (k, v) :: o' => if String.eqb k key then Some v else own o' key
  end.

Definition Object_prototype : properties :=
  [ ("constructor", VObject "Object");
    ("hasOwnProperty", VObject "hasOwnProperty");
    ("isPrototypeOf", VObject "isPrototypeOf");
    ("propertyIsEnumerable", VObject "propertyIsEnumerable");
    ("toLocaleString", VObject "toLocaleString");
    ("toString", VObject "toString");
    ("valueOf", VObject "valueOf");
    ("__proto__", VObject "Object.prototype");
    ("__defineGetter__", VObject "__defineGetter__");
    ("__defineSetter__", VObject "__defineSetter__");
    ("__lookupGetter__", VObject "__lookupGetter__");
    ("__lookupSetter__", VObject "__lookupSetter__") ].

(** [o[key]] for an object literal [o]. *)
Definition Get (o : properties) (key : string) : value :=
  match own o key with
  | Some v => v
  | None =>
      match own Object_prototype key with
      | Some v => v
      | None => VUndefined
      end
  end.

(** [s.substring(start, end)]; [end_ = None] is the omitted argument. *)
Definition substring (s : string) (start : nat) (end_ : option nat) : string :=
  let len := String.length s in
  let intStart := Nat.min start len in
  let intEnd := match end_ with
                | None => len
                | Some e => Nat.min e len
                end in
  let from := Nat.min intStart intEnd in
  let to := Nat.max intStart intEnd in
  String.substring from (to - from) s.

(** Decimal text of an integer, as template literals print it. *)
Definition ToString (z : Z) : string := NilZero.string_of_int (Z.to_int z).

(** [Array.prototype.sort(comparefn)].  The language requires a stable sort;
    for a comparator that orders the elements consistently every conforming
    implementation returns the same array, the one computed by this stable
    insertion sort.  A [NaN] returned by the comparator counts as [+0]. *)
Definition negative (n : number) : bool :=
  match n with
  | Num r => if Rlt_dec r 0 then true else false
  | NaN => false
  end.

Section Sort.
Context {A : Type} (comparefn : A -> A -> number).

Fixpoint insert (x : A) (l : list A) : list A :=
  match l with
  | [] => [x]
  | y :: l' =>
      if negative (comparefn y x) then y :: insert x l' else x :: y :: l'
  end.

Fixpoint sort (l : list A) : list A :=
  match l with
  | [] => []
  | x :: l' => insert x (sort l')
  end.

End Sort.

End JS.

(* ================================================================== *)
(** ** The environment: clock, random generator, console *)

(** [clock i] is the value of the [i]-th reading of the wall clock,
    [entropy i] the text [Math.random().toString(36)] of the [i]-th draw;
    [ticks] and [draws] count the readings made so far, [console] collects
    the lines printed by [console.log], oldest first. *)
Record Env : Type := mkEnv {
  clock : nat -> Z;
  entropy : nat -> string;
  ticks : nat;
  draws : nat;
  console : list string
}.

Definition IO (A : Type) : Type := Env -> A * Env.

Definition ret {A : Type} (a : A) : IO A := fun e => (a, e).

Definition bind {A B : Type} (c : IO A) (k : A -> IO B) : IO B :=
  fun e => let (a, e') := c e in k a e'.

Declare Scope io_scope.
Delimit Scope io_scope with io.
Notation "x <- c ;; k" := (bind c (fun x => k))
  (at level 61, c at next level, right associativity) : io_scope.
Notation "c ;;; k" := (bind c (fun _ => k))
  (at level 61, right associativity) : io_scope.
Open Scope io_scope.

(** [Date.now()], and the time value of [new Date()]. *)
Definition Date_now : IO Z :=
  fun e => (clock e (ticks e),
            mkEnv (clock e) (entropy e) (S (ticks e)) (draws e) (console e)).

(** [Math.random().toString(36)]. *)
Definition Math_random_toString36 : IO string :=
  fun e => (entropy e (draws e),
            mkEnv (clock e) (entropy e) (ticks e) (S (draws e)) (console e)).

Definition console_log (line : string) : IO unit :=
  fun e => (tt, mkEnv (clock e) (entropy e) (ticks e) (draws e)
                      (console e ++ [line])).

(** [array.map(f)] for a callback that reads the environment: the elements
    are visited from index 0 upwards. *)
Fixpoint mapM {A B : Type} (f : A -> IO B) (l : list A) : IO (list B) :=
  match l with
  | [] => ret []
  | x :: l' => y <- f x ;; ys <- mapM f l' ;; ret (y :: ys)
  end.

(* ================================================================== *)
(** ** The entry model *)

Record MetaTags : Type := mkMetaTags {
  layer : string;
  persistence : string;
  visibility : string;
  category : string;
  status : string;
  contextWeight : JS.number
}.

Record Metadata : Type := mkMetadata {
  created : Z;
  lastAccessed : Z;
  accessCount : nat;
  source : string
}.

Record Memory : Type := mkMemory {
  id : string;
  priority : Z;
  content : string;
  metaTags : MetaTags;
  systemTags : list string;
  metadata : Metadata
}.

(** The object: [maxSlots] and the array [slots], in arrival order. *)
Record WorkingMemory : Type := mkWorkingMemory {
  maxSlots : Z;
  slots : list Memory
}.

(** [constructor(maxSlots = 7)]; [None] is the omitted argument. *)
Definition constructor (maxSlots_ : option Z) : WorkingMemory :=
  let maxSlots := match maxSlots_ with Some n => n | None => 7 end in
  mkWorkingMemory maxSlots [].

(* ================================================================== *)
(** ** calculateValue *)

(** The table literal of [calculateValue]. *)
Definition categoryWeights : JS.properties :=
  [ ("decision", JS.VNumber (JS.Num 1.0));
    ("insight", JS.VNumber (JS.Num 0.9));
    ("pattern", JS.VNumber (JS.Num 0.8));
    ("reference", JS.VNumber (JS.Num 0.6));
    ("task", JS.VNumber (JS.Num 0.5));
    ("result", JS.VNumber (JS.Num 0.4)) ].

Definition calculateValue (memory : Memory) : IO JS.number :=
  now <- Date_now ;;
  let age := JS.of_Z (now - lastAccessed (metadata memory)) in
  let ageDecay :=
    JS.Math_exp (JS.div (JS.neg age) (JS.of_Z (1000 * 60 * 60))) in
  let accessBonus :=
    JS.Math_log (JS.of_Z (Z.of_nat (accessCount (metadata memory)) + 1)) in
  let priorityWeight := JS.div (JS.of_Z (priority memory)) (JS.of_Z 7) in
  let categoryWeight :=
    JS.or (JS.Get categoryWeights (category (metaTags memory)))
          (JS.VNumber (JS.Num 0.5)) in
  ret (JS.add
         (JS.add
            (JS.add (JS.mul ageDecay (JS.Num 0.3))
                    (JS.mul accessBonus (JS.Num 0.2)))
            (JS.mul priorityWeight (JS.Num 0.3)))
         (JS.mul (JS.ToNumber categoryWeight) (JS.Num 0.2))).

(* ================================================================== *)
(** ** evictLowestValue, add, access, list *)

(** The objects [{ memory: m, score: ... }] built by [evictLowestValue]. *)
Record Scored : Type := mkScored {
  memory : Memory;
  score : JS.number
}.

(** The comparator [(a, b) => a.score - b.score]. *)
Definition byScore (a b : Scored) : JS.number := JS.sub (score a) (score b).

Definition score_entry (m : Memory) : IO Scored :=
  s <- calculateValue m ;; ret (mkScored m s).

Definition evictLowestValue (this : WorkingMemory)
  : IO (option Memory * WorkingMemory) :=
  if Nat.eqb (List.length (slots this)) 0 then ret (None, this)
  else
    scored0 <- mapM score_entry (slots this) ;;
    let scored := JS.sort byScore scored0 in
    match scored with
    | [] =>
        (* not reached: [sort] keeps the length, and the array is not empty
           (the source would raise a TypeError on [scored[0].memory]) *)
        ret (None, this)
    | first :: _ =>
        let evicted := memory first in
        (if String.eqb (category (metaTags evicted)) "decision"
            || String.eqb (category (metaTags evicted)) "insight"
         then console_log ("📦 Archiving important memory: " ++ id evicted)
         else ret tt) ;;;
        ret (Some evicted,
             mkWorkingMemory
               (maxSlots this)
               (filter (fun m => negb (String.eqb (id m) (id evicted)))
                       (slots this)))
    end.

(** [add(content, category, priority = 5, tags = [])]; [None] is an omitted
    (or [undefined]) argument.  The entry is built first, which reads the
    clock three times and the generator once, then the store is checked. *)
Definition add (this : WorkingMemory) (content_ : string) (category_ : string)
    (priority_ : option Z) (tags_ : option (list string))
  : IO (Memory * WorkingMemory) :=
  let priority := match priority_ with Some p => p | None => 5 end in
  let tags := match tags_ with Some t => t | None => [] end in
  stamp <- Date_now ;;
  rnd <- Math_random_toString36 ;;
  created_ <- Date_now ;;
  lastAccessed_ <- Date_now ;;
  let memory :=
    {| id := "wm_" ++ JS.ToString stamp ++ "_" ++ JS.substring rnd 7 None;
       priority := JS.Math_min (JS.Math_max priority 1) 7;
       content := JS.substring content_ 0 (Some 200%nat);
       metaTags :=
         {| layer := "working_memory";
            persistence := "session";
            visibility := "on_demand";
            category := category_;
            status := "active";
            contextWeight := JS.Num 0.2 |};
       systemTags := tags;
       metadata :=
         {| created := created_;
            lastAccessed := lastAccessed_;
            accessCount := 0;
            source := "manual" |} |} in
  this' <- (if Z.of_nat (List.length (slots this)) >=? maxSlots this
            then r <- evictLowestValue this ;; ret (snd r)
            else ret this) ;;
  ret (memory, mkWorkingMemory (maxSlots this') (slots this' ++ [memory])).

(** [array.find(p)], with the position of the object found: the caller
    mutates that object in place. *)
Fixpoint find_from {A : Type} (p : A -> bool) (l : list A) (i : nat)
  : option (nat * A) :=
  match l with
  | [] => None
  | x :: l' => if p x then Some (i, x) else find_from p l' (S i)
  end.

Fixpoint replace_at {A : Type} (i : nat) (x : A) (l : list A) : list A :=
  match l, i with
  | [], _ => []
  | _ :: l', O => x :: l'
  | y :: l', S i' => y :: replace_at i' x l'
  end.

(** [access(memoryId)]; the result [None] is [undefined]. *)
Definition access (this : WorkingMemory) (memoryId : string)
  : IO (option Memory * WorkingMemory) :=
  match find_from (fun m => String.eqb (id m) memoryId) (slots this) 0 with
  | Some (i, m) =>
      now <- Date_now ;;
      let m' :=
        {| id := id m;
           priority := priority m;
           content := content m;
           metaTags := metaTags m;
           systemTags := systemTags m;
           metadata :=
             {| created := created (metadata m);
                lastAccessed := now;
                accessCount := S (accessCount (metadata m));
                source := source (metadata m) |} |} in
      ret (Some m', mkWorkingMemory (maxSlots this) (replace_at i m' (slots this)))
  | None => ret (None, this)
  end.

(** What [list] returns: the array [slots] itself, or copies of the entries
    with the extra property [value]. *)
Inductive Listing : Type :=
| Entries (l : list Memory)
| Valued (l : list (Memory * string)).

Definition listing_length (r : Listing) : nat :=
  match r with
  | Entries l => List.length l
  | Valued l => List.length l
  end.

Section List.
(** [Number.prototype.toFixed]: the decimal text of a number, which is not
    computed here. *)
Variable toFixed : JS.number -> nat -> string.

(** [list(verbose = false)] (the name [list] is taken). *)
Definition list_ (this : WorkingMemory) (verbose_ : option bool)
  : IO Listing :=
  let verbose := match verbose_ with Some b => b | None => false end in
  if verbose
  then
    l <- mapM (fun m => v <- calculateValue m ;; ret (m, toFixed v 3))
              (slots this) ;;
    ret (Valued l)
  else ret (Entries (slots this)).

End List.

(* ================================================================== *)
(** ** The [clear] action of the [elvis_memory] tool ([src/index.js]) *)

Module Handler.

Record TextContent : Type := mkTextContent {
  type : string;
  text : string
}.

Record Response : Type := mkResponse {
  content : list TextContent
}.

(** [case 'clear':] the handler empties the array of the store itself and
    reports the number of entries it held. *)
Definition clear (workingMemory : WorkingMemory) : Response * WorkingMemory :=
  let count := List.length (slots workingMemory) in
  let workingMemory' := mkWorkingMemory (maxSlots workingMemory) [] in
  (mkResponse
     [ mkTextContent "text"
         ("Cleared " ++ JS.ToString (Z.of_nat count)
          ++ " memories from working memory.") ],
   workingMemory').

End Handler.

(* ================================================================== *)
(** ** Sequences of operations on one store *)

Inductive Op : Type :=
| OpAdd (content_ category_ : string) (priority_ : option Z)
        (tags_ : option (list string))
| OpAccess (memoryId : string)
| OpEvict
| OpClear.

Definition step (op : Op) (this : WorkingMemory) : IO WorkingMemory :=
  match op with
  | OpAdd c k p t => r <- add this c k p t ;; ret (snd r)
  | OpAccess i => r <- access this i ;; ret (snd r)
  | OpEvict => r <- evictLowestValue this ;; ret (snd r)
  | OpClear => ret (snd (Handler.clear this))
  end.

Fixpoint run (ops : list Op) (this : WorkingMemory) : IO WorkingMemory :=
  match ops with
  | [] => ret this
  | op :: ops' => this' <- step op this ;; run ops' this'
  end.

(* ================================================================== *)
(** ** The scoring formula as the specification words it *)

(** Category weights of the specification: six named categories, 0.5 for
    every other value. *)
Definition spec_weight (c : string) : R :=
  if String.eqb c "decision" then 1.0
  else if String.eqb c "insight" then 0.9
  else if String.eqb c "pattern" then 0.8
  else if String.eqb c "reference" then 0.6
  else if String.eqb c "task" then 0.5
  else if String.eqb c "result" then 0.4
  else 0.5.

Definition spec_score (e : Memory) (now : Z) : R :=
  0.3 * exp (- IZR (now - lastAccessed (metadata e)) / 3600000)
  + 0.2 * ln (IZR (Z.of_nat (accessCount (metadata e)) + 1))
  + 0.3 * (IZR (priority e) / 7)
  + 0.2 * spec_weight (category (metaTags e)).

(** The category names that an object literal answers through its prototype
    rather than through its own properties. *)
Definition inherited (c : string) : bool :=
  match JS.own JS.Object_prototype c with
  | Some _ => true
  | None => false
  end.

(** The environment after [n] more readings of the clock. *)
Definition advance (n : nat) (e : Env) : Env :=
  mkEnv (clock e) (entropy e) (n + ticks e) (draws e) (console e).

(** The score the class computes for [m] at the [j]-th next reading of the
    clock. *)
Definition score_now (e : Env) (j : nat) (m : Memory) : JS.number :=
  fst (calculateValue m (advance j e)).

(** Pairwise distinct identifiers among the live entries. *)
Definition unique_ids (this : WorkingMemory) : Prop :=
  NoDup (map id (slots this)).

(** [after] is [before] with one entry taken out and [m] appended. *)
Definition evicts_one_then_appends
    (before after : list Memory) (m : Memory) : Prop :=
  exists l1 x l2,
    (before = l1 ++ x :: l2 /\ after = l1 ++ l2 ++ [m])%list.

(** [after] is [before] without the entry at position [i]. *)
Definition removes_at (i : nat) (before after : list Memory) : Prop :=
  (after = firstn i before ++ skipn (S i) before)%list.

(** The identifier [add] gives to the entry it creates in environment [e]. *)
Definition next_id (e : Env) : string :=
  "wm_" ++ JS.ToString (clock e (ticks e)) ++ "_"
        ++ JS.substring (entropy e (draws e)) 7 None.

(** Every insert of the sequence generates an identifier that no live entry
    carries at that moment. *)
Fixpoint fresh_ids (ops : list Op) (this : WorkingMemory) (e : Env) : Prop :=
  match ops with
  | [] => True
  | op :: ops' =>
      match op with
      | OpAdd _ _ _ _ => ~ In (next_id e) (map id (slots this))
      | _ => True
      end
      /\ fresh_ids ops' (fst (step op this e)) (snd (step op this e))
  end.

(** The clock never runs backwards. *)
Definition monotone_clock (e : Env) : Prop :=
  forall i j : nat, (i <= j)%nat -> clock e i <= clock e j.

(** [h], at position [i] of [l], has the lowest score of [l] and is the
    first entry of [l] to have it. *)
Definition lowest_first (l : list Scored) (i : nat) (h : Scored) : Prop :=
  nth_error l i = Some h
  /\ (forall j x, nth_error l j = Some x -> JS.le (score h) (score x))
  /\ (forall j x, (j < i)%nat -> nth_error l j = Some x ->
                  JS.lt (score h) (score x)).

(** The environment once [add] has built its entry: three readings of the
    clock and one draw of the generator. *)
Definition built (e : Env) : Env :=
  mkEnv (clock e) (entropy e) (3 + ticks e) (S (draws e)) (console e).

(** The capacity bound. *)
Definition within_capacity (this : WorkingMemory) : Prop :=
  Z.of_nat (List.length (slots this)) <= maxSlots this.

(** Two environments for concrete runs.  In [frozen] every reading of the
    clock falls in the same millisecond and the random draws, though
    different, have texts that agree from their eighth character on (the
    part that [substring(7)] keeps).  In [ticking] the clock advances by one
    millisecond per reading. *)
Definition frozen : Env :=
  mkEnv (fun _ => 1753413017366)
        (fun i => match i with
                  | O => "0.4fzyo82mvyr"
                  | S _ => "0.9k1xq82mvyr"
                  end)
        0 0 [].

Definition ticking : Env :=
  mkEnv (fun i => 1753413017366 + Z.of_nat i) (fun _ => "0.4fzyo82mvyr")
        0 0 [].

(** An entry written out field by field, as [add] lays it out. *)
Definition sample (i k : string) (p : Z) (created_ accessed : Z) (n : nat)
  : Memory :=
  mkMemory i p "note"
    (mkMetaTags "working_memory" "session" "on_demand" k "active"
                (JS.Num 0.2))
    []
    (mkMetadata created_ accessed n "manual").

(** Two entries that agree on every field but [lastAccessed]. *)
Definition same_but_lastAccessed (m1 m2 : Memory) : Prop :=
  id m1 = id m2
  /\ priority m1 = priority m2
  /\ content m1 = content m2
  /\ metaTags m1 = metaTags m2
  /\ systemTags m1 = systemTags m2
  /\ created (metadata m1) = created (metadata m2)
  /\ accessCount (metadata m1) = accessCount (metadata m2)
  /\ source (metadata m1) = source (metadata m2).

(* ================================================================== *)
(** ** The callers of the store in [src/index.js] *)

(** The cases of the request handler that use the store.  A case is embedded
    as a function of its arguments and of the store object; the result of an
    awaited external call (the model endpoint, the screen capture) is an
    argument of the part of the case that runs after it. *)

Module Tool.

(** What a case does: it returns an answer, or an exception leaves it. *)
Inductive Outcome : Type :=
| Answer (r : Handler.Response)
| Throws (error : string).

(** [{ content: [{ type: 'text', text }] }]. *)
Definition reply (text : string) : Outcome :=
  Answer (Handler.mkResponse [Handler.mkTextContent "text" text]).

(** The line break of the template literals. *)
Definition nl : string := String (ascii_of_nat 10) "".

(** A string argument that passes the test [if (!s)]: it is present and not
    empty. *)
Definition present (s : option string) : option string :=
  match s with
  | None => None
  | Some EmptyString => None
  | Some (String _ _) => s
  end.

(** [generateTaskId()]. *)
Definition generateTaskId : IO string :=
  stamp <- Date_now ;;
  rnd <- Math_random_toString36 ;;
  ret ("task_" ++ JS.ToString stamp ++ "_" ++ JS.substring rnd 7 None).

(** The objects [{ m, v: workingMemory.calculateValue(m) }] of the [add]
    case, and its comparator [(a, b) => a.v - b.v]. *)
Record Preview : Type := mkPreview {
  m : Memory;
  v : JS.number
}.

Definition byValue (a b : Preview) : JS.number := JS.sub (v a) (v b).

Definition preview_entry (x : Memory) : IO Preview :=
  s <- calculateValue x ;; ret (mkPreview x s).

(** [case 'add':] of [elvis_memory].  The case first works out which entry
    it expects [add] to evict, then calls [add] with [priority || 5] and the
    tag ['manual'].  [c] and [k] are the arguments [content] and [category]
    once known to be present. *)
Definition memory_add (content_ category_ : option string)
    (priority_ : option Z) (workingMemory : WorkingMemory)
  : IO (Outcome * WorkingMemory) :=
  match present content_, present category_ with
  | Some c, Some k =>
      expected <-
        (if Z.of_nat (List.length (slots workingMemory))
            >=? maxSlots workingMemory
         then
           scored <- mapM preview_entry (slots workingMemory) ;;
           match JS.sort byValue scored with
           | [] => ret (inl "TypeError")
           | first :: _ => ret (inr (Some (m first)))
           end
         else ret (inr None)) ;;
      match expected with
      | inl error => ret (Throws error, workingMemory)
      | inr evicted =>
          r <- add workingMemory c k
                   (Some (match priority_ with
                          | Some p => if p =? 0 then 5 else p
                          | None => 5
                          end))
                   (Some ["manual"]) ;;
          let memory := fst r in
          let response :=
            "✅ Added to working memory:" ++ nl
            ++ "ID: " ++ id memory ++ nl
            ++ "Category: " ++ k ++ nl
            ++ "Priority: " ++ JS.ToString (priority memory) in
          let response :=
            match evicted with
            | Some old =>
                response ++ nl ++ nl
                ++ "🗑️ Evicted: [" ++ category (metaTags old) ++ "] "
                ++ JS.substring (content old) 0 (Some 50%nat) ++ "..."
            | None => response
            end in
          ret (reply response, snd r)
      end
  | _, _ =>
      ret (reply "Error: content and category are required for add action",
           workingMemory)
  end.

(** [case 'access':] of [elvis_memory]. *)
Definition memory_access (memory_id : option string)
    (workingMemory : WorkingMemory)
  : IO (Outcome * WorkingMemory) :=
  match present memory_id with
  | None =>
      ret (reply "Error: memory_id required for access action", workingMemory)
  | Some i =>
      r <- access workingMemory i ;;
      match fst r with
      | None => ret (reply ("Memory not found: " ++ i), snd r)
      | Some accessed =>
          ret (reply ("Accessed memory:" ++ nl ++ content accessed ++ nl ++ nl
                      ++ "Access count: "
                      ++ JS.ToString
                           (Z.of_nat (accessCount (metadata accessed)))),
               snd r)
      end
  end.

End Tool.

(** The records of delegated tasks and [case 'elvis_result':]. *)
Module Delegate.

(** A task record.  [result] is [None] while it is [null] (or if the model
    endpoint did not answer with a string); [started], [completed] and
    [duration_ms] are absent until the task reaches them. *)
Record Task : Type := mkTask {
  id : string;
  task : string;
  model : string;
  context : string;
  status : string;
  created : Z;
  result : option string;
  error : option string;
  started : option Z;
  completed : option Z;
  duration_ms : option Z
}.

(** The map [tasks] and [tasks.get(key)]. *)
Definition Tasks : Type := list (string * Task).

Fixpoint get (tasks : Tasks) (key : string) : option Task :=
  match tasks with
  | [] => None
  | (k, t) :: rest => if String.eqb k key then Some t else get rest key
  end.

(** The text stored for a completed task. *)
Definition summary_of (t : Task) (answer : string) : string :=
  JS.substring (task t) 0 (Some 100%nat) ++ " → "
  ++ JS.substring answer 0 (Some 50%nat) ++ "...".

Section Result.
Variable toFixed : JS.number -> nat -> string.

Definition seconds (t : Task) : string :=
  toFixed (JS.div (match duration_ms t with
                   | Some d => JS.of_Z d
                   | None => JS.NaN
                   end)
                  (JS.of_Z 1000)) 1.

Definition elvis_result (tasks : Tasks) (task_id : string)
    (workingMemory : WorkingMemory)
  : IO (Tool.Outcome * WorkingMemory) :=
  match get tasks task_id with
  | None => ret (Tool.reply ("Task not found: " ++ task_id), workingMemory)
  | Some t =>
      if negb (String.eqb (status t) "completed")
      then ret (Tool.reply ("Task " ++ task_id
                            ++ " is not completed yet. Status: " ++ status t),
                workingMemory)
      else
        match result t with
        | None =>
            (* [task.result.substring] on a value that is not a string *)
            ret (Tool.Throws "TypeError", workingMemory)
        | Some answer =>
            r <- add workingMemory (summary_of t answer) "result" (Some 3)
                     (Some [model t; "elvis";
                            "duration:" ++ seconds t ++ "s"]) ;;
            ret (Tool.reply
                   ("Task: " ++ task t ++ Tool.nl ++ Tool.nl
                    ++ "Result:" ++ Tool.nl ++ answer ++ Tool.nl ++ Tool.nl
                    ++ "---" ++ Tool.nl
                    ++ "Completed in " ++ seconds t ++ " seconds using "
                    ++ model t ++ Tool.nl ++ Tool.nl
                    ++ "💾 Stored in working memory (slot "
                    ++ JS.ToString
                         (Z.of_nat (List.length (slots (snd r))))
                    ++ "/" ++ JS.ToString (maxSlots (snd r)) ++ ")"),
                 snd r)
        end
  end.

End Result.

End Delegate.

(** [case 'elvis_analyze_screen':] in its two parts, before and after the
    awaited capture. *)
Module Screen.

(** What [captureAndAnalyze] resolves to, as far as the case reads it:
    [analysis] is [None] when the property is not a string. *)
Record Capture : Type := mkCapture {
  success : bool;
  error : string;
  analysis : option string;
  size : JS.number
}.

(** Up to the [await]: the defaults of the arguments, and the entry that
    records the intent. *)
Definition analyze_begin (prompt_ model_ : option string)
    (workingMemory : WorkingMemory) : IO WorkingMemory :=
  let prompt := match prompt_ with
                | Some p => p
                | None => "What do you see on the screen?"
                end in
  let model := match model_ with Some x => x | None => "llava" end in
  r <- add workingMemory ("Screen analysis: " ++ prompt) "task" (Some 6)
           (Some ["screen"; "vision"; model]) ;;
  ret (snd r).

(** The text stored for an analysis. *)
Definition stored_text (answer : string) : string :=
  "Screen analysis result: "
  ++ (JS.substring answer 0 (Some 200%nat) ++ "...").

Section Resume.
Variable toFixed : JS.number -> nat -> string.

(** From the [await] on, with the store as it is at that moment. *)
Definition analyze_resume (prompt model : string) (result : Capture)
    (workingMemory : WorkingMemory)
  : IO (Tool.Outcome * WorkingMemory) :=
  if negb (success result)
  then ret (Tool.reply ("Failed to analyze screen: " ++ error result),
            workingMemory)
  else
    match analysis result with
    | None => ret (Tool.Throws "TypeError", workingMemory)
    | Some answer =>
        r <- add workingMemory (stored_text answer) "result" (Some 4)
                 (Some ["screen"; "vision"; model; "analysis"]) ;;
        ret (Tool.reply
               ("🔍 Screen Analysis" ++ Tool.nl ++ Tool.nl
                ++ "Prompt: " ++ prompt ++ Tool.nl
                ++ "Model: " ++ model ++ Tool.nl ++ Tool.nl
                ++ "Analysis:" ++ Tool.nl ++ answer ++ Tool.nl ++ Tool.nl
                ++ "---" ++ Tool.nl
                ++ "Screenshot size: "
                ++ toFixed (JS.div (size result) (JS.of_Z 1024)) 1 ++ " KB"
                ++ Tool.nl ++ Tool.nl
                ++ "💾 Analysis stored in working memory"),
             snd r)
    end.

End Resume.

End Screen.

(** The requests that reach the store, and a sequence of them served one
    after the other. *)
Inductive Request : Type :=
| MemoryAdd (content_ category_ : option string) (priority_ : option Z)
| MemoryAccess (memory_id : option string)
| MemoryClear
| Result (tasks : Delegate.Tasks) (task_id : string)
| AnalyzeBegin (prompt_ model_ : option string)
| AnalyzeResume (prompt model : string) (result : Screen.Capture).

Section Serve.
Variable toFixed : JS.number -> nat -> string.

Definition serve (q : Request) (workingMemory : WorkingMemory)
  : IO WorkingMemory :=
  match q with
  | MemoryAdd c k p => r <- Tool.memory_add c k p workingMemory ;; ret (snd r)
  | MemoryAccess i => r <- Tool.memory_access i workingMemory ;; ret (snd r)
  | MemoryClear => ret (snd (Handler.clear workingMemory))
  | Result tasks i =>
      r <- Delegate.elvis_result toFixed tasks i workingMemory ;; ret (snd r)
  | AnalyzeBegin p x => Screen.analyze_begin p x workingMemory
  | AnalyzeResume p x c =>
      r <- Screen.analyze_resume toFixed p x c workingMemory ;; ret (snd r)
  end.

Fixpoint serve_all (qs : list Request) (workingMemory : WorkingMemory)
  : IO WorkingMemory :=
  match qs with
  | [] => ret workingMemory
  | q :: qs' => w <- serve q workingMemory ;; serve_all qs' w
  end.

End Serve.

(** The properties every live entry keeps: priority within [1, 7], content
    of at most 200 characters. *)
Definition well_formed (x : Memory) : Prop :=
  1 <= priority x <= 7 /\ (String.length (content x) <= 200)%nat.

(** [x'] is [x] after zero or more accesses: only [lastAccessed] and
    [accessCount] may differ, and the count has not decreased. *)
Definition later_state (x x' : Memory) : Prop :=
  id x' = id x
  /\ priority x' = priority x
  /\ content x' = content x
  /\ metaTags x' = metaTags x
  /\ systemTags x' = systemTags x
  /\ created (metadata x') = created (metadata x)
  /\ source (metadata x') = source (metadata x)
  /\ (accessCount (metadata x) <= accessCount (metadata x'))%nat.

(** The answer of the [add] case for the created entry [memory], the
    category [k] given and the eviction it expects. *)
Definition added_text (memory : Memory) (k : string)
    (evicted : option Memory) : string :=
  let response :=
    "✅ Added to working memory:" ++ Tool.nl
    ++ "ID: " ++ id memory ++ Tool.nl
    ++ "Category: " ++ k ++ Tool.nl
    ++ "Priority: " ++ JS.ToString (priority memory) in
  match evicted with
  | Some old =>
      response ++ Tool.nl ++ Tool.nl
      ++ "🗑️ Evicted: [" ++ category (metaTags old) ++ "] "
      ++ JS.substring (content old) 0 (Some 50%nat) ++ "..."
  | None => response
  end.

(** [priority || 5] for an integer argument that may be absent. *)
Definition priority_or_5 (priority_ : option Z) : Z :=
  match priority_ with
  | Some p => if p =? 0 then 5 else p
  | None => 5
  end.


(** A text without the separator of the identifiers. *)
Definition plain (s : string) : Prop :=
  forall c : ascii, In c (list_ascii_of_string s) -> c <> "_"%char.

(* ================================================================== *)
(** ** Numbers and the scoring function *)

Lemma add_NaN_r (a : JS.number) : JS.add a JS.NaN = JS.NaN.
Proof. destruct a; reflexivity. Qed.

Lemma div_Num (x y : R) : y <> 0%R -> JS.div (JS.Num x) (JS.Num y) = JS.Num (x / y).
Proof.
  intros Hy. unfold JS.div. destruct (Req_dec_T y 0) as [E | _]; [contradiction | reflexivity].
Qed.

Lemma Math_log_Num (x : R) : (0 < x)%R -> JS.Math_log (JS.Num x) = JS.Num (ln x).
Proof.
  intros Hx. unfold JS.Math_log. destruct (Rlt_dec 0 x) as [_ | N]; [reflexivity | contradiction].
Qed.

Lemma or_number (r d : R) :
  r <> 0%R ->
  JS.or (JS.VNumber (JS.Num r)) (JS.VNumber (JS.Num d)) = JS.VNumber (JS.Num r).
Proof.
  intros Hr. unfold JS.or, JS.ToBoolean.
  destruct (Req_dec_T r 0) as [E | _]; [contradiction | reflexivity].
Qed.

Lemma Date_now_eq (e : Env) : Date_now e = (clock e (ticks e), advance 1 e).
Proof. reflexivity. Qed.

Lemma advance_0 (e : Env) : advance 0 e = e.
Proof. destruct e; reflexivity. Qed.

Lemma advance_advance (n k : nat) (e : Env) :
  advance n (advance k e) = advance (n + k) e.
Proof. unfold advance; simpl. f_equal. lia. Qed.

Lemma calculateValue_env (m : Memory) (e : Env) :
  snd (calculateValue m e) = advance 1 e.
Proof. reflexivity. Qed.

Lemma calculateValue_clock (m : Memory) (e e' : Env) :
  clock e (ticks e) = clock e' (ticks e') ->
  fst (calculateValue m e) = fst (calculateValue m e').
Proof.
  intros H. unfold calculateValue, bind, ret, Date_now; simpl. rewrite H. reflexivity.
Qed.

Lemma own_cons (k : string) (v : JS.value) (o : JS.properties) (key : string) :
  JS.own ((k, v) :: o) key = if String.eqb k key then Some v else JS.own o key.
Proof. reflexivity. Qed.

Lemma own_nil (key : string) : JS.own [] key = None.
Proof. reflexivity. Qed.

(** The category weight read from the table, for a name that is not
    inherited. *)
Lemma categoryWeight_table (c : string) :
  inherited c = false ->
  JS.ToNumber (JS.or (JS.Get categoryWeights c) (JS.VNumber (JS.Num 0.5)))
  = JS.Num (spec_weight c).
Proof.
  unfold inherited. intros Hc.
  unfold JS.Get, categoryWeights, spec_weight.
  rewrite !own_cons, own_nil, !(String.eqb_sym _ c).
  repeat match goal with
  | |- context [String.eqb c ?k] =>
      destruct (String.eqb c k);
      [ rewrite or_number by lra; reflexivity | ]
  end.
  destruct (JS.own JS.Object_prototype c); [discriminate | reflexivity].
Qed.

(** For a name the prototype answers, the weight is an object and its
    numeric value is [NaN]. *)
Lemma categoryWeight_inherited (c : string) :
  inherited c = true ->
  JS.ToNumber (JS.or (JS.Get categoryWeights c) (JS.VNumber (JS.Num 0.5)))
  = JS.NaN.
Proof.
  unfold inherited, JS.Object_prototype.
  rewrite !own_cons, own_nil.
  repeat match goal with
  | |- context [String.eqb ?k c] =>
      destruct (String.eqb_spec k c) as [<- | _]; [ intros _; reflexivity | ]
  end.
  discriminate.
Qed.

Lemma calculateValue_formula (m : Memory) (e : Env) :
  inherited (category (metaTags m)) = false ->
  calculateValue m e = (JS.Num (spec_score m (clock e (ticks e))), advance 1 e).
Proof.
  intros Hc. unfold calculateValue, bind, ret. rewrite Date_now_eq.
  rewrite (categoryWeight_table _ Hc).
  unfold JS.of_Z, JS.neg.
  rewrite !div_Num by (apply not_0_IZR; lia).
  rewrite Math_log_Num by (apply IZR_lt; lia).
  unfold JS.Math_exp, JS.add, JS.mul, JS.lift2, spec_score.
  f_equal. f_equal.
  replace (IZR (1000 * 60 * 60)) with 3600000%R by (simpl; lra).
  lra.
Qed.

Lemma calculateValue_inherited (m : Memory) (e : Env) :
  inherited (category (metaTags m)) = true ->
  calculateValue m e = (JS.NaN, advance 1 e).
Proof.
  intros Hc. unfold calculateValue, bind, ret. rewrite Date_now_eq.
  rewrite (categoryWeight_inherited _ Hc).
  cbv beta iota zeta. unfold JS.mul at 4. simpl JS.lift2.
  rewrite add_NaN_r. reflexivity.
Qed.

(* ================================================================== *)
(** ** Reading the environment *)

Lemma bind_eq {A B : Type} (c : IO A) (k : A -> IO B) (e : Env) :
  bind c k e = k (fst (c e)) (snd (c e)).
Proof. unfold bind. destruct (c e); reflexivity. Qed.

(** Unfolds the monadic steps of an operation. *)
Ltac io_step := rewrite ?bind_eq; unfold ret; cbn [fst snd].

Lemma score_entry_eq (m : Memory) (e : Env) :
  score_entry m e = (mkScored m (score_now e 0 m), advance 1 e).
Proof.
  unfold score_entry. rewrite bind_eq. unfold ret, score_now.
  rewrite advance_0, calculateValue_env. reflexivity.
Qed.

Lemma mapM_cons {A B : Type} (f : A -> IO B) (x : A) (l : list A) (e : Env) :
  mapM f (x :: l) e
  = (fst (f x e) :: fst (mapM f l (snd (f x e))), snd (mapM f l (snd (f x e)))).
Proof. simpl. rewrite !bind_eq. reflexivity. Qed.

Lemma score_now_advance (e : Env) (j : nat) (m : Memory) :
  score_now (advance 1 e) j m = score_now e (S j) m.
Proof.
  unfold score_now. rewrite advance_advance, Nat.add_1_r. reflexivity.
Qed.

(** Mapping [score_entry] over the array scores the [j]-th entry at the
    [j]-th reading of the clock, and reads the clock once per entry. *)
Lemma mapM_score_entry_nth (l : list Memory) :
  forall (e : Env) (j : nat),
    nth_error (fst (mapM score_entry l e)) j
    = option_map (fun m => mkScored m (score_now e j m)) (nth_error l j).
Proof.
  induction l as [| x l IH]; intros e j.
  - destruct j; reflexivity.
  - rewrite mapM_cons, score_entry_eq. cbn [fst snd].
    destruct j as [| j]; [reflexivity |].
    cbn [nth_error]. rewrite IH.
    destruct (nth_error l j); [| reflexivity].
    cbn [option_map]. rewrite score_now_advance. reflexivity.
Qed.

Lemma mapM_score_entry_env (l : list Memory) :
  forall e : Env, snd (mapM score_entry l e) = advance (List.length l) e.
Proof.
  induction l as [| x l IH]; intros e.
  - simpl. rewrite advance_0. reflexivity.
  - rewrite mapM_cons, score_entry_eq. cbn [fst snd].
    rewrite IH, advance_advance, Nat.add_1_r. reflexivity.
Qed.

Lemma mapM_score_entry_length (l : list Memory) :
  forall e : Env, List.length (fst (mapM score_entry l e)) = List.length l.
Proof.
  induction l as [| x l IH]; intros e; [reflexivity |].
  rewrite mapM_cons. cbn [fst List.length]. rewrite IH. reflexivity.
Qed.

(** Only the readings of the clock matter to the scores. *)
Lemma mapM_score_entry_clock (l : list Memory) :
  forall e e' : Env,
    clock e = clock e' -> ticks e = ticks e' ->
    fst (mapM score_entry l e) = fst (mapM score_entry l e').
Proof.
  induction l as [| x l IH]; intros e e' Hc Ht; [reflexivity |].
  rewrite !mapM_cons, !score_entry_eq. cbn [fst snd].
  f_equal.
  - f_equal. unfold score_now. apply calculateValue_clock.
    simpl. rewrite Hc, Ht. reflexivity.
  - apply IH; simpl; congruence.
Qed.

(* ================================================================== *)
(** ** The sort and its first element *)

Lemma insert_length {A : Type} (f : A -> A -> JS.number) (x : A) (l : list A) :
  List.length (JS.insert f x l) = S (List.length l).
Proof.
  induction l as [| y l IH]; simpl; [reflexivity |].
  destruct (JS.negative (f y x)); simpl; [rewrite IH |]; reflexivity.
Qed.

Lemma sort_length {A : Type} (f : A -> A -> JS.number) (l : list A) :
  List.length (JS.sort f l) = List.length l.
Proof.
  induction l as [| x l IH]; simpl; [reflexivity |].
  rewrite insert_length, IH. reflexivity.
Qed.

Lemma insert_In {A : Type} (f : A -> A -> JS.number) (x z : A) (l : list A) :
  In z (JS.insert f x l) -> z = x \/ In z l.
Proof.
  induction l as [| y l IH]; simpl.
  - intros [H | []]; auto.
  - destruct (JS.negative (f y x)); simpl.
    + intros [H | H]; [auto | destruct (IH H); auto].
    + intros [H | [H | H]]; auto.
Qed.

Lemma sort_In {A : Type} (f : A -> A -> JS.number) (z : A) (l : list A) :
  In z (JS.sort f l) -> In z l.
Proof.
  induction l as [| x l IH]; simpl; [tauto |].
  intros H. apply insert_In in H. destruct H as [-> | H]; auto.
Qed.

Lemma negative_byScore (a b : Scored) (x y : R) :
  score a = JS.Num x -> score b = JS.Num y ->
  JS.negative (byScore a b) = if Rlt_dec x y then true else false.
Proof.
  intros Ha Hb. unfold byScore, JS.sub, JS.lift2, JS.negative. rewrite Ha, Hb.
  destruct (Rlt_dec (x - y) 0), (Rlt_dec x y); try reflexivity; exfalso; lra.
Qed.

(** After a sort by score of an array of numeric scores, the first element
    is the first entry of lowest score. *)
Lemma sort_head_lowest (l : list Scored) :
  Forall (fun s => JS.is_number (score s)) l ->
  l <> [] ->
  exists i h t, JS.sort byScore l = h :: t /\ lowest_first l i h.
Proof.
  induction l as [| x l IH]; intros Hnum Hne; [congruence |].
  inversion Hnum as [| ? ? Hx Hl]; subst.
  destruct (score x) as [sx |] eqn:Ex; [| contradiction].
  destruct l as [| y l'].
  - exists 0%nat, x, []. split; [reflexivity |]. split; [reflexivity |]. split.
    + intros [| j] z Hz; simpl in Hz; [| destruct j; discriminate].
      injection Hz as <-. rewrite Ex. simpl. lra.
    + intros j z Hj; lia.
  - destruct (IH Hl ltac:(discriminate)) as (i & h & t & Hs & Hi & Hle & Hlt).
    assert (Hh : JS.is_number (score h)).
    { apply nth_error_In in Hi. rewrite Forall_forall in Hl. exact (Hl h Hi). }
    destruct (score h) as [sh |] eqn:Eh; [| contradiction].
    change (JS.sort byScore (x :: y :: l'))
      with (JS.insert byScore x (JS.sort byScore (y :: l'))).
    rewrite Hs. cbn [JS.insert].
    rewrite (negative_byScore h x sh sx Eh Ex).
    destruct (Rlt_dec sh sx) as [Hlow | Hhigh].
    + exists (S i), h, (JS.insert byScore x t).
      split; [reflexivity |]. split; [exact Hi |]. split.
      * intros [| j] z Hz; simpl in Hz.
        -- injection Hz as <-. rewrite Eh, Ex. simpl. lra.
        -- rewrite Eh. exact (Hle j z Hz).
      * intros [| j] z Hj Hz; simpl in Hz.
        -- injection Hz as <-. rewrite Eh, Ex. simpl. exact Hlow.
        -- rewrite Eh. apply (Hlt j z); [lia | exact Hz].
    + exists 0%nat, x, (h :: t).
      split; [reflexivity |]. split; [reflexivity |]. split.
      * intros [| j] z Hz; simpl in Hz.
        -- injection Hz as <-. rewrite Ex. simpl. lra.
        -- specialize (Hle j z Hz). rewrite Ex.
           destruct (score z); simpl in *; [lra | contradiction].
      * intros j z Hj; lia.
Qed.

(* ================================================================== *)
(** ** Removing the entries that carry an identifier *)

Lemma filter_length_le {A : Type} (p : A -> bool) (l : list A) :
  (List.length (filter p l) <= List.length l)%nat.
Proof.
  induction l as [| x l IH]; simpl; [lia |].
  destruct (p x); simpl; lia.
Qed.

Lemma filter_length_lt {A : Type} (p : A -> bool) (l : list A) (x : A) :
  In x l -> p x = false -> (List.length (filter p l) < List.length l)%nat.
Proof.
  induction l as [| y l IH]; simpl; [tauto |].
  intros [-> | Hin] Hp.
  - rewrite Hp. pose proof (filter_length_le p l). lia.
  - specialize (IH Hin Hp). destruct (p y); simpl; lia.
Qed.

Lemma filter_keeps_all {A : Type} (p : A -> bool) (l : list A) :
  (forall x, In x l -> p x = true) -> filter p l = l.
Proof.
  induction l as [| y l IH]; simpl; intros H; [reflexivity |].
  rewrite (H y) by auto. f_equal. apply IH. auto.
Qed.

(** With pairwise distinct identifiers, filtering out the identifier of the
    entry at position [i] removes that entry and no other. *)
Lemma filter_id_removes_at (l : list Memory) :
  forall (i : nat) (x : Memory),
    NoDup (map id l) ->
    nth_error l i = Some x ->
    removes_at i l (filter (fun m => negb (String.eqb (id m) (id x))) l).
Proof.
  unfold removes_at.
  induction l as [| y l IH]; intros i x Hnd Hi.
  - destruct i; discriminate.
  - simpl in Hnd. inversion Hnd as [| ? ? Hy Hl]; subst.
    destruct i as [| i]; simpl in Hi.
    + injection Hi as ->. simpl. rewrite String.eqb_refl. simpl.
      apply filter_keeps_all. intros m Hm.
      destruct (String.eqb_spec (id m) (id x)) as [E | _]; [| reflexivity].
      exfalso. apply Hy. rewrite <- E. apply in_map. exact Hm.
    + simpl. destruct (String.eqb_spec (id y) (id x)) as [E | _].
      * exfalso. apply Hy. rewrite E. apply in_map.
        apply nth_error_In with (n := i). exact Hi.
      * simpl. f_equal. apply IH; assumption.
Qed.

Lemma removes_at_split (l l' : list Memory) (i : nat) (x : Memory) :
  nth_error l i = Some x ->
  removes_at i l l' ->
  exists l1 l2, (l = l1 ++ x :: l2 /\ l' = l1 ++ l2)%list.
Proof.
  unfold removes_at. intros Hi ->.
  exists (firstn i l), (skipn (S i) l). split; [| reflexivity].
  revert i Hi. induction l as [| y l IH]; intros [| i] Hi; try discriminate.
  - injection Hi as ->. reflexivity.
  - simpl in Hi. simpl. f_equal. apply IH. exact Hi.
Qed.

(* ================================================================== *)
(** ** evictLowestValue *)

Lemma evictLowestValue_empty (this : WorkingMemory) (e : Env) :
  slots this = [] -> evictLowestValue this e = (None, this, e).
Proof.
  intros H. unfold evictLowestValue. rewrite H. reflexivity.
Qed.

(** On a store that is not empty the method returns the memory of the first
    element of the sorted array and keeps the entries with another
    identifier. *)
Lemma evictLowestValue_nonempty (this : WorkingMemory) (e : Env) :
  slots this <> [] ->
  exists first rest,
    JS.sort byScore (fst (mapM score_entry (slots this) e)) = first :: rest
    /\ fst (evictLowestValue this e)
       = (Some (memory first),
          mkWorkingMemory
            (maxSlots this)
            (filter (fun m => negb (String.eqb (id m) (id (memory first))))
                    (slots this))).
Proof.
  intros Hne. unfold evictLowestValue.
  destruct (slots this) as [| m0 l0] eqn:Es; [congruence |].
  cbn [List.length Nat.eqb]. rewrite bind_eq.
  destruct (JS.sort byScore (fst (mapM score_entry (m0 :: l0) e)))
    as [| first rest] eqn:Esort.
  - apply (f_equal (@List.length Scored)) in Esort.
    rewrite sort_length, mapM_score_entry_length in Esort. discriminate.
  - exists first, rest. split; [reflexivity |].
    rewrite bind_eq. reflexivity.
Qed.

Lemma evictLowestValue_maxSlots (this : WorkingMemory) (e : Env) :
  maxSlots (snd (fst (evictLowestValue this e))) = maxSlots this.
Proof.
  destruct (slots this) as [| m0 l0] eqn:Es.
  - rewrite evictLowestValue_empty by exact Es. reflexivity.
  - destruct (evictLowestValue_nonempty this e) as (f & r & _ & H);
      [rewrite Es; discriminate |].
    rewrite H. reflexivity.
Qed.

(** The evicted entry is a live entry. *)
Lemma sorted_first_live (l : list Memory) (e : Env) (first : Scored)
    (rest : list Scored) :
  JS.sort byScore (fst (mapM score_entry l e)) = first :: rest ->
  exists i, nth_error l i = Some (memory first)
            /\ score first = score_now e i (memory first).
Proof.
  intros Hs.
  assert (Hin : In first (fst (mapM score_entry l e))).
  { apply (sort_In byScore). rewrite Hs. left. reflexivity. }
  apply In_nth_error in Hin. destruct Hin as [i Hi].
  rewrite mapM_score_entry_nth in Hi.
  destruct (nth_error l i) as [m |] eqn:Em; [| discriminate].
  injection Hi as <-. exists i. split; [exact Em | reflexivity].
Qed.

(** The environment after an eviction: one reading of the clock per live
    entry, the generator untouched. *)
Lemma evictLowestValue_env (this : WorkingMemory) (e : Env) :
  let e' := snd (evictLowestValue this e) in
  clock e' = clock e /\ entropy e' = entropy e /\ draws e' = draws e
  /\ ticks e' = (List.length (slots this) + ticks e)%nat.
Proof.
  unfold evictLowestValue.
  destruct (slots this) as [| m0 l0] eqn:Es; [simpl; auto |].
  cbn [List.length Nat.eqb]. rewrite bind_eq.
  pose proof (mapM_score_entry_env (m0 :: l0) e) as He.
  destruct (JS.sort byScore (fst (mapM score_entry (m0 :: l0) e)))
    as [| first rest].
  - unfold ret. cbn [snd]. rewrite He. simpl. auto.
  - rewrite bind_eq. unfold ret. cbn [snd].
    destruct (String.eqb (category (metaTags (memory first))) "decision"
              || String.eqb (category (metaTags (memory first))) "insight");
      unfold console_log; cbn [snd]; rewrite He; simpl; auto.
Qed.

(** With numeric scores, the evicted entry is the first live entry of lowest
    score, each score being computed at its own reading of the clock. *)
Lemma evictLowestValue_lowest (this : WorkingMemory) (e : Env) :
  slots this <> [] ->
  (forall j m, nth_error (slots this) j = Some m ->
               JS.is_number (score_now e j m)) ->
  exists i evicted,
    nth_error (slots this) i = Some evicted
    /\ fst (evictLowestValue this e)
       = (Some evicted,
          mkWorkingMemory
            (maxSlots this)
            (filter (fun m => negb (String.eqb (id m) (id evicted)))
                    (slots this)))
    /\ (forall j m, nth_error (slots this) j = Some m ->
                    JS.le (score_now e i evicted) (score_now e j m))
    /\ (forall j m, (j < i)%nat -> nth_error (slots this) j = Some m ->
                    JS.lt (score_now e i evicted) (score_now e j m)).
Proof.
  intros Hne Hnum.
  destruct (evictLowestValue_nonempty this e Hne) as (first & rest & Hs & Hr).
  set (scored := fst (mapM score_entry (slots this) e)) in *.
  assert (Hall : Forall (fun s => JS.is_number (score s)) scored).
  { apply Forall_forall. intros s Hin. apply In_nth_error in Hin.
    destruct Hin as [j Hj]. unfold scored in Hj.
    rewrite mapM_score_entry_nth in Hj.
    destruct (nth_error (slots this) j) as [m |] eqn:Em; [| discriminate].
    injection Hj as <-. simpl. exact (Hnum j m Em). }
  assert (Hsne : scored <> []).
  { intros E. apply (f_equal (@List.length Scored)) in E. unfold scored in E.
    rewrite mapM_score_entry_length in E.
    destruct (slots this); [congruence | discriminate]. }
  destruct (sort_head_lowest scored Hall Hsne) as (i & h & t & Hs' & Hi & Hle & Hlt).
  rewrite Hs in Hs'. injection Hs' as <- <-.
  unfold scored in Hi. rewrite mapM_score_entry_nth in Hi.
  destruct (nth_error (slots this) i) as [mi |] eqn:Emi; [| discriminate].
  injection Hi as Hfirst.
  exists i, mi. rewrite <- Hfirst in Hr, Hle, Hlt. cbn [memory score] in *.
  split; [exact Emi |]. split; [exact Hr |]. split.
  - intros j m Hj.
    apply (Hle j (mkScored m (score_now e j m))).
    unfold scored. rewrite mapM_score_entry_nth, Hj. reflexivity.
  - intros j m Hlt' Hj.
    apply (Hlt j (mkScored m (score_now e j m)) Hlt').
    unfold scored. rewrite mapM_score_entry_nth, Hj. reflexivity.
Qed.

(* ================================================================== *)
(** ** add *)

Lemma add_eq (this : WorkingMemory) (c k : string) (p : option Z)
    (t : option (list string)) (e : Env) :
  let m := fst (fst (add this c k p t e)) in
  add this c k p t e
  = if Z.of_nat (List.length (slots this)) >=? maxSlots this
    then (m,
          mkWorkingMemory
            (maxSlots this)
            (slots (snd (fst (evictLowestValue this (built e)))) ++ [m]),
          snd (evictLowestValue this (built e)))
    else (m, mkWorkingMemory (maxSlots this) (slots this ++ [m]), built e).
Proof.
  unfold add. rewrite !bind_eq. cbn [fst snd Date_now Math_random_toString36
    clock entropy ticks draws console].
  fold (built e).
  destruct (Z.of_nat (List.length (slots this)) >=? maxSlots this).
  - io_step.
    rewrite evictLowestValue_maxSlots. reflexivity.
  - reflexivity.
Qed.

(** The entry that [add] creates. *)
Lemma add_entry (this : WorkingMemory) (c k : string) (p : option Z)
    (t : option (list string)) (e : Env) :
  let m := fst (fst (add this c k p t e)) in
  id m = next_id e
  /\ priority m = Z.min (Z.max (match p with Some v => v | None => 5 end) 1) 7
  /\ content m = JS.substring c 0 (Some 200%nat)
  /\ category (metaTags m) = k
  /\ systemTags m = match t with Some v => v | None => [] end
  /\ created (metadata m) = clock e (1 + ticks e)
  /\ lastAccessed (metadata m) = clock e (2 + ticks e)
  /\ accessCount (metadata m) = 0%nat.
Proof.
  unfold add. rewrite !bind_eq. cbn [fst snd Date_now Math_random_toString36
    clock entropy ticks draws console].
  destruct (Z.of_nat (List.length (slots this)) >=? maxSlots this);
    io_step;
    repeat split; reflexivity.
Qed.

Lemma add_maxSlots (this : WorkingMemory) (c k : string) (p : option Z)
    (t : option (list string)) (e : Env) :
  maxSlots (snd (fst (add this c k p t e))) = maxSlots this.
Proof.
  rewrite add_eq. destruct (_ >=? _); reflexivity.
Qed.

Lemma add_slots_room (this : WorkingMemory) (c k : string) (p : option Z)
    (t : option (list string)) (e : Env) :
  Z.of_nat (List.length (slots this)) < maxSlots this ->
  slots (snd (fst (add this c k p t e)))
  = (slots this ++ [fst (fst (add this c k p t e))])%list
  /\ snd (add this c k p t e) = built e.
Proof.
  intros H. pose proof (add_eq this c k p t e) as E. cbv zeta in E.
  destruct (Z.geb_spec (Z.of_nat (List.length (slots this))) (maxSlots this));
    [lia |].
  rewrite E. cbn [fst snd slots]. split; reflexivity.
Qed.

(** On a full store, [add] drops the entries carrying the identifier of the
    entry that [evictLowestValue] selects, then appends the new one. *)
Lemma add_slots_full (this : WorkingMemory) (c k : string) (p : option Z)
    (t : option (list string)) (e : Env) :
  maxSlots this <= Z.of_nat (List.length (slots this)) ->
  slots this <> [] ->
  exists first rest,
    JS.sort byScore (fst (mapM score_entry (slots this) (built e)))
    = first :: rest
    /\ slots (snd (fst (add this c k p t e)))
       = (filter (fun m => negb (String.eqb (id m) (id (memory first))))
                 (slots this)
          ++ [fst (fst (add this c k p t e))])%list.
Proof.
  intros Hfull Hne.
  destruct (evictLowestValue_nonempty this (built e) Hne)
    as (first & rest & Hs & Hr).
  exists first, rest. split; [exact Hs |].
  pose proof (add_eq this c k p t e) as E. cbv zeta in E.
  destruct (Z.geb_spec (Z.of_nat (List.length (slots this))) (maxSlots this));
    [| lia].
  rewrite E. cbn [fst snd slots]. rewrite Hr. reflexivity.
Qed.

Lemma nonempty_of_full (this : WorkingMemory) :
  1 <= maxSlots this ->
  maxSlots this <= Z.of_nat (List.length (slots this)) ->
  slots this <> [].
Proof.
  intros H1 H2 E. rewrite E in H2. simpl in H2. lia.
Qed.

(* ================================================================== *)
(** ** The capacity bound along a sequence of operations *)

Lemma add_within_capacity (this : WorkingMemory) (c k : string)
    (p : option Z) (t : option (list string)) (e : Env) :
  1 <= maxSlots this ->
  within_capacity this ->
  within_capacity (snd (fst (add this c k p t e))).
Proof.
  unfold within_capacity. intros H1 Hb. rewrite add_maxSlots.
  destruct (Z_lt_le_dec (Z.of_nat (List.length (slots this))) (maxSlots this))
    as [Hroom | Hfull].
  - destruct (add_slots_room this c k p t e Hroom) as [-> _].
    rewrite length_app. simpl. lia.
  - pose proof (nonempty_of_full this H1 Hfull) as Hne.
    destruct (add_slots_full this c k p t e Hfull Hne)
      as (first & rest & Hs & ->).
    destruct (sorted_first_live _ _ _ _ Hs) as (i & Hi & _).
    apply nth_error_In in Hi.
    pose proof (filter_length_lt
      (fun m => negb (String.eqb (id m) (id (memory first))))
      (slots this) (memory first) Hi) as Hlt.
    cbv beta in Hlt. rewrite String.eqb_refl in Hlt. specialize (Hlt eq_refl).
    rewrite length_app. simpl. lia.
Qed.

Lemma replace_at_length {A : Type} (l : list A) :
  forall (i : nat) (x : A), List.length (replace_at i x l) = List.length l.
Proof.
  induction l as [| y l IH]; intros [| i] x; simpl; auto.
Qed.

Lemma access_maxSlots (this : WorkingMemory) (i : string) (e : Env) :
  maxSlots (snd (fst (access this i e))) = maxSlots this.
Proof.
  unfold access. destruct (find_from _ _ _) as [[n m] |]; reflexivity.
Qed.

Lemma access_length (this : WorkingMemory) (i : string) (e : Env) :
  List.length (slots (snd (fst (access this i e))))
  = List.length (slots this).
Proof.
  unfold access. destruct (find_from _ _ _) as [[n m] |]; [| reflexivity].
  rewrite bind_eq. unfold ret. cbn [fst snd slots].
  apply replace_at_length.
Qed.

Lemma evictLowestValue_length (this : WorkingMemory) (e : Env) :
  (List.length (slots (snd (fst (evictLowestValue this e))))
   <= List.length (slots this))%nat.
Proof.
  destruct (slots this) as [| m0 l0] eqn:Es.
  - rewrite evictLowestValue_empty by exact Es. cbn [fst snd]. rewrite Es.
    simpl. lia.
  - destruct (evictLowestValue_nonempty this e) as (f & r & _ & H);
      [rewrite Es; discriminate |].
    rewrite H. cbn [snd slots]. rewrite <- Es. apply filter_length_le.
Qed.

Lemma step_maxSlots (op : Op) (this : WorkingMemory) (e : Env) :
  maxSlots (fst (step op this e)) = maxSlots this.
Proof.
  destruct op; unfold step; io_step.
  - apply add_maxSlots.
  - apply access_maxSlots.
  - apply evictLowestValue_maxSlots.
  - reflexivity.
Qed.

Lemma step_within_capacity (op : Op) (this : WorkingMemory) (e : Env) :
  1 <= maxSlots this ->
  within_capacity this ->
  within_capacity (fst (step op this e)).
Proof.
  intros H1 Hb. destruct op; unfold step; io_step.
  - apply add_within_capacity; assumption.
  - unfold within_capacity in *. rewrite access_maxSlots, access_length.
    exact Hb.
  - unfold within_capacity in *. rewrite evictLowestValue_maxSlots.
    pose proof (evictLowestValue_length this e). lia.
  - unfold within_capacity. simpl. lia.
Qed.

Lemma run_cons (op : Op) (ops : list Op) (this : WorkingMemory) (e : Env) :
  run (op :: ops) this e = run ops (fst (step op this e)) (snd (step op this e)).
Proof. simpl. rewrite bind_eq. reflexivity. Qed.

Lemma run_within_capacity (ops : list Op) :
  forall (this : WorkingMemory) (e : Env),
    1 <= maxSlots this ->
    within_capacity this ->
    within_capacity (fst (run ops this e))
    /\ maxSlots (fst (run ops this e)) = maxSlots this.
Proof.
  induction ops as [| op ops IH]; intros this e H1 Hb.
  - simpl. auto.
  - rewrite run_cons.
    destruct (IH (fst (step op this e)) (snd (step op this e))) as [Hw Hm].
    + rewrite step_maxSlots. exact H1.
    + apply step_within_capacity; assumption.
    + split; [exact Hw |]. rewrite Hm. apply step_maxSlots.
Qed.

(* ================================================================== *)
(** ** access *)

Lemma find_from_Some {A : Type} (p : A -> bool) (l : list A) :
  forall (k i : nat) (x : A),
    find_from p l k = Some (i, x) ->
    exists j, i = (k + j)%nat
              /\ nth_error l j = Some x
              /\ p x = true
              /\ forall j' y, (j' < j)%nat -> nth_error l j' = Some y ->
                              p y = false.
Proof.
  induction l as [| y l IH]; intros k i x H; simpl in H; [discriminate |].
  destruct (p y) eqn:Ep.
  - injection H as <- <-. exists 0%nat. repeat split; auto; intros; lia.
  - destruct (IH _ _ _ H) as (j & -> & Hj & Hp & Hbefore).
    exists (S j). split; [lia |]. split; [exact Hj |]. split; [exact Hp |].
    intros [| j'] z Hlt Hz; simpl in Hz.
    + injection Hz as <-. exact Ep.
    + apply (Hbefore j'); [lia | exact Hz].
Qed.

Lemma find_from_None {A : Type} (p : A -> bool) (l : list A) :
  forall k : nat,
    (forall x, In x l -> p x = false) -> find_from p l k = None.
Proof.
  induction l as [| y l IH]; intros k H; simpl; [reflexivity |].
  rewrite (H y) by (left; reflexivity). apply IH. intros x Hx. apply H.
  right. exact Hx.
Qed.

Lemma find_from_first {A : Type} (p : A -> bool) (l : list A) :
  forall (k j : nat) (x : A),
    nth_error l j = Some x ->
    p x = true ->
    (forall j' y, (j' < j)%nat -> nth_error l j' = Some y -> p y = false) ->
    find_from p l k = Some ((k + j)%nat, x).
Proof.
  induction l as [| y l IH]; intros k j x Hj Hp Hbefore.
  - destruct j; discriminate.
  - destruct j as [| j]; simpl in Hj.
    + injection Hj as ->. simpl. rewrite Hp, Nat.add_0_r. reflexivity.
    + simpl. rewrite (Hbefore 0%nat y) by (simpl; auto; lia).
      rewrite (IH (S k) j x Hj Hp).
      * f_equal. f_equal. lia.
      * intros j' z Hlt Hz. apply (Hbefore (S j')); [lia | exact Hz].
Qed.

Lemma replace_at_nth {A : Type} (l : list A) :
  forall (i j : nat) (x : A),
    nth_error (replace_at i x l) j
    = if Nat.eqb j i
      then match nth_error l j with Some _ => Some x | None => None end
      else nth_error l j.
Proof.
  induction l as [| y l IH]; intros i j x.
  - destruct i, j; simpl; try reflexivity.
    destruct (Nat.eqb j i); destruct j; reflexivity.
  - destruct i as [| i], j as [| j]; simpl; try reflexivity.
    apply IH.
Qed.

Lemma replace_at_map_id (l : list Memory) :
  forall (i : nat) (m m' : Memory),
    nth_error l i = Some m -> id m' = id m ->
    map id (replace_at i m' l) = map id l.
Proof.
  induction l as [| y l IH]; intros [| i] m m' Hi Hid; simpl in *;
    try discriminate.
  - injection Hi as ->. rewrite Hid. reflexivity.
  - f_equal. apply (IH i m m'); assumption.
Qed.

(** What [access] does when the first live entry carrying [memoryId] is [m],
    at position [i]. *)
Lemma access_found (this : WorkingMemory) (memoryId : string) (e : Env)
    (i : nat) (m : Memory) :
  find_from (fun x => String.eqb (id x) memoryId) (slots this) 0 = Some (i, m) ->
  access this memoryId e
  = (Some (mkMemory (id m) (priority m) (content m) (metaTags m)
             (systemTags m)
             (mkMetadata (created (metadata m)) (clock e (ticks e))
                (S (accessCount (metadata m))) (source (metadata m)))),
     mkWorkingMemory
       (maxSlots this)
       (replace_at i
          (mkMemory (id m) (priority m) (content m) (metaTags m)
             (systemTags m)
             (mkMetadata (created (metadata m)) (clock e (ticks e))
                (S (accessCount (metadata m))) (source (metadata m))))
          (slots this)),
     advance 1 e).
Proof.
  intros H. unfold access. rewrite H. rewrite bind_eq. reflexivity.
Qed.

Lemma access_missing (this : WorkingMemory) (memoryId : string) (e : Env) :
  (forall m, In m (slots this) -> id m <> memoryId) ->
  access this memoryId e = (None, this, e).
Proof.
  intros H. unfold access. rewrite find_from_None; [reflexivity |].
  intros m Hm. apply String.eqb_neq. apply H. exact Hm.
Qed.

(* ================================================================== *)
(** ** Text of the stored content *)

Lemma substring_0_firstn (n : nat) :
  forall s : string,
    list_ascii_of_string (String.substring 0 n s)
    = firstn n (list_ascii_of_string s).
Proof.
  induction n as [| n IH]; intros s.
  - destruct s; reflexivity.
  - destruct s as [| a s]; [reflexivity |].
    simpl. rewrite IH. reflexivity.
Qed.

Lemma length_list_ascii (s : string) :
  List.length (list_ascii_of_string s) = String.length s.
Proof. induction s as [| a s IH]; simpl; [| rewrite IH]; reflexivity. Qed.

(** [s.substring(0, k)] is the text of the first [k] characters of [s]. *)
Lemma substring_prefix (s : string) (k : nat) :
  list_ascii_of_string (JS.substring s 0 (Some k))
  = firstn k (list_ascii_of_string s).
Proof.
  unfold JS.substring. cbn [Nat.min].
  rewrite Nat.max_0_l, Nat.sub_0_r, substring_0_firstn.
  destruct (Nat.min_spec k (String.length s)) as [[_ ->] | [Hle ->]];
    [reflexivity |].
  rewrite !firstn_all2; rewrite ?length_list_ascii; auto.
Qed.

Lemma substring_prefix_length (s : string) (k : nat) :
  String.length (JS.substring s 0 (Some k)) = Nat.min k (String.length s).
Proof.
  rewrite <- !length_list_ascii, substring_prefix, length_firstn. reflexivity.
Qed.

(* ================================================================== *)
(** ** Identifiers of the live entries *)

Lemma In_map_filter (p : Memory -> bool) (l : list Memory) (i : string) :
  In i (map id (filter p l)) -> In i (map id l).
Proof.
  rewrite !in_map_iff. intros (m & Hid & Hm).
  apply filter_In in Hm. exists m. tauto.
Qed.

Lemma NoDup_map_filter (p : Memory -> bool) (l : list Memory) :
  NoDup (map id l) -> NoDup (map id (filter p l)).
Proof.
  induction l as [| y l IH]; simpl; intros H; [constructor |].
  inversion H as [| ? ? Hy Hl]; subst.
  destruct (p y); simpl; [| auto].
  constructor; [| auto].
  intros Hin. apply Hy. exact (In_map_filter p l _ Hin).
Qed.

Lemma NoDup_map_snoc (l : list Memory) (m : Memory) :
  NoDup (map id l) -> ~ In (id m) (map id l) ->
  NoDup (map id (l ++ [m])).
Proof.
  intros Hl Hm. rewrite map_app. simpl.
  apply NoDup_app; [exact Hl | constructor; [intros [] | constructor] |].
  intros x Hx [<- | []]. exact (Hm Hx).
Qed.

Lemma evictLowestValue_slots (this : WorkingMemory) (e : Env) :
  exists p : Memory -> bool,
    slots (snd (fst (evictLowestValue this e))) = filter p (slots this).
Proof.
  destruct (slots this) as [| m0 l0] eqn:Es.
  - exists (fun _ => true). rewrite evictLowestValue_empty by exact Es.
    cbn [fst snd]. rewrite Es. reflexivity.
  - destruct (evictLowestValue_nonempty this e) as (f & r & _ & H);
      [rewrite Es; discriminate |].
    rewrite H, Es. eexists. reflexivity.
Qed.

Lemma add_slots (this : WorkingMemory) (c k : string) (p : option Z)
    (t : option (list string)) (e : Env) :
  exists q : Memory -> bool,
    slots (snd (fst (add this c k p t e)))
    = (filter q (slots this) ++ [fst (fst (add this c k p t e))])%list.
Proof.
  pose proof (add_eq this c k p t e) as E. cbv zeta in E.
  destruct (Z.of_nat (List.length (slots this)) >=? maxSlots this).
  - destruct (evictLowestValue_slots this (built e)) as [q Hq].
    exists q. rewrite E. cbn [fst snd slots]. rewrite Hq. reflexivity.
  - exists (fun _ => true). rewrite E. cbn [fst snd slots].
    rewrite filter_keeps_all by reflexivity. reflexivity.
Qed.

Lemma step_unique_ids (op : Op) (this : WorkingMemory) (e : Env) :
  unique_ids this ->
  match op with
  | OpAdd _ _ _ _ => ~ In (next_id e) (map id (slots this))
  | _ => True
  end ->
  unique_ids (fst (step op this e)).
Proof.
  unfold unique_ids. intros Hu Hfresh.
  destruct op as [c k p t | i | |]; unfold step; io_step.
  - destruct (add_slots this c k p t e) as [q ->].
    destruct (add_entry this c k p t e) as [Hid _].
    apply NoDup_map_snoc; [apply NoDup_map_filter; exact Hu |].
    rewrite Hid. intros Hin. apply Hfresh. exact (In_map_filter q _ _ Hin).
  - unfold access.
    destruct (find_from _ _ _) as [[n m] |] eqn:Ef; [| exact Hu].
    rewrite bind_eq. unfold ret. cbn [fst snd slots].
    destruct (find_from_Some _ _ _ _ _ Ef) as (j & -> & Hj & _).
    rewrite (replace_at_map_id _ _ m); [exact Hu | exact Hj | reflexivity].
  - destruct (evictLowestValue_slots this e) as [q ->].
    apply NoDup_map_filter. exact Hu.
  - simpl. constructor.
Qed.

Lemma run_unique_ids (ops : list Op) :
  forall (this : WorkingMemory) (e : Env),
    unique_ids this -> fresh_ids ops this e ->
    unique_ids (fst (run ops this e)).
Proof.
  induction ops as [| op ops IH]; intros this e Hu Hf.
  - exact Hu.
  - rewrite run_cons. destruct Hf as [Hop Hrest].
    apply IH; [| exact Hrest].
    apply step_unique_ids; [exact Hu |].
    destruct op; auto.
Qed.

(** When every live entry carries the same identifier, an eviction empties
    the store. *)
Lemma filter_same_id (l : list Memory) (x : Memory) (i : string) :
  (forall m, In m l -> id m = i) -> In x l ->
  filter (fun m => negb (String.eqb (id m) (id x))) l = [].
Proof.
  intros Hall Hx. rewrite (Hall x Hx). clear x Hx.
  induction l as [| y l IH]; [reflexivity |].
  simpl. rewrite (Hall y) by (left; reflexivity).
  rewrite String.eqb_refl. simpl.
  apply IH. intros m Hm. apply Hall. right. exact Hm.
Qed.

Lemma evictLowestValue_same_id (this : WorkingMemory) (e : Env) (i : string) :
  slots this <> [] ->
  (forall m, In m (slots this) -> id m = i) ->
  slots (snd (fst (evictLowestValue this e))) = [].
Proof.
  intros Hne Hall.
  destruct (evictLowestValue_nonempty this e Hne) as (f & r & Hs & H).
  rewrite H. cbn [snd slots].
  destruct (sorted_first_live _ _ _ _ Hs) as (j & Hj & _).
  apply (filter_same_id _ _ i Hall). exact (nth_error_In _ _ Hj).
Qed.

Lemma add_same_id (this : WorkingMemory) (c k : string) (p : option Z)
    (t : option (list string)) (e : Env) (i : string) :
  maxSlots this <= Z.of_nat (List.length (slots this)) ->
  slots this <> [] ->
  (forall m, In m (slots this) -> id m = i) ->
  slots (snd (fst (add this c k p t e))) = [fst (fst (add this c k p t e))].
Proof.
  intros Hfull Hne Hall.
  destruct (add_slots_full this c k p t e Hfull Hne) as (f & r & Hs & ->).
  destruct (sorted_first_live _ _ _ _ Hs) as (j & Hj & _).
  rewrite (filter_same_id _ _ i Hall (nth_error_In _ _ Hj)). reflexivity.
Qed.

(** The result of an eviction depends on the readings of the clock only. *)
Lemma evictLowestValue_clock (this : WorkingMemory) (e e' : Env) :
  clock e = clock e' -> ticks e = ticks e' ->
  fst (evictLowestValue this e) = fst (evictLowestValue this e').
Proof.
  intros Hc Ht. unfold evictLowestValue.
  destruct (Nat.eqb (List.length (slots this)) 0); [reflexivity |].
  rewrite !bind_eq. rewrite (mapM_score_entry_clock _ e e' Hc Ht).
  destruct (JS.sort byScore (fst (mapM score_entry (slots this) e')));
    [reflexivity |].
  rewrite !bind_eq. reflexivity.
Qed.

(* ================================================================== *)
(** ** Concrete checks of the embedding *)

Example substring_of_random_text :
  JS.substring "0.4fzyo82mvyr" 7 None = "82mvyr".
Proof. reflexivity. Qed.

Example substring_of_short_text : JS.substring "0.i" 7 None = "".
Proof. reflexivity. Qed.

Example substring_swaps_its_bounds :
  JS.substring "working" 4 (Some 1%nat) = "ork".
Proof. reflexivity. Qed.

Example next_id_ticking : next_id ticking = "wm_1753413017366_82mvyr".
Proof. reflexivity. Qed.

Example next_id_after_one_insert :
  next_id (built ticking) = "wm_1753413017369_82mvyr".
Proof. reflexivity. Qed.

Example lookup_listed : JS.Get categoryWeights "result" = JS.VNumber (JS.Num 0.4).
Proof. reflexivity. Qed.

Example lookup_unlisted : JS.Get categoryWeights "note" = JS.VUndefined.
Proof. reflexivity. Qed.

Example lookup_inherited :
  JS.Get categoryWeights "constructor" = JS.VObject "Object".
Proof. reflexivity. Qed.

Example clamp_examples :
  JS.Math_min (JS.Math_max 20 1) 7 = 7
  /\ JS.Math_min (JS.Math_max (-3) 1) 7 = 1
  /\ JS.Math_min (JS.Math_max 4 1) 7 = 4.
Proof. repeat split. Qed.

Example clear_answer :
  Handler.text
    (hd (Handler.mkTextContent "" "")
        (Handler.content
           (fst (Handler.clear
                   (mkWorkingMemory 7 [sample "wm_1_a" "task" 3 0 0 0;
                                       sample "wm_2_b" "task" 5 0 0 0])))))
  = "Cleared 2 memories from working memory.".
Proof. reflexivity. Qed.

(* ================================================================== *)
(** ** Capacity (C1) *)

(** C1, amended.  For every capacity [C >= 1] given to the constructor (7
    when omitted) and every sequence of operations (inserts, accesses,
    evictions, clears), the store holds at most [C] entries after the
    sequence.  On a store that holds [C] entries or more, [add] removes the
    live entries that carry the identifier of the entry selected by
    [evictLowestValue], at least one of them, and then appends the new entry;
    it removes exactly one entry when the live identifiers are pairwise
    distinct. *)
Theorem capacity_bound (C : Z) (ops : list Op) (e : Env) :
  1 <= C ->
  let this := fst (run ops (constructor (Some C)) e) in
  maxSlots (constructor None) = 7
  /\ maxSlots this = C
  /\ Z.of_nat (List.length (slots this)) <= C
  /\ forall (c k : string) (p : option Z) (t : option (list string))
            (e1 : Env),
       C <= Z.of_nat (List.length (slots this)) ->
       let r := add this c k p t e1 in
       exists evicted,
         In evicted (slots this)
         /\ slots (snd (fst r))
            = (filter (fun m => negb (String.eqb (id m) (id evicted)))
                      (slots this)
               ++ [fst (fst r)])%list
         /\ (List.length (slots (snd (fst r)))
             <= List.length (slots this))%nat
         /\ (unique_ids this ->
             evicts_one_then_appends
               (slots this) (slots (snd (fst r))) (fst (fst r))).
Proof.
  intros HC this.
  destruct (run_within_capacity ops (constructor (Some C)) e) as [Hw Hm];
    [exact HC | unfold within_capacity; simpl; lia |].
  fold this in Hw, Hm. simpl in Hm. unfold within_capacity in Hw.
  rewrite Hm in Hw.
  split; [reflexivity |]. split; [exact Hm |]. split; [exact Hw |].
  intros c k p t e1 Hfull r.
  assert (Hfull' : maxSlots this <= Z.of_nat (List.length (slots this)))
    by (rewrite Hm; exact Hfull).
  assert (Hne : slots this <> [])
    by (apply nonempty_of_full; [rewrite Hm; exact HC | exact Hfull']).
  destruct (add_slots_full this c k p t e1 Hfull' Hne)
    as (first & rest & Hs & Hslots).
  destruct (sorted_first_live _ _ _ _ Hs) as (i & Hi & _).
  exists (memory first).
  split; [exact (nth_error_In _ _ Hi) |].
  split; [exact Hslots |].
  split.
  - unfold r. rewrite Hslots, length_app.
    pose proof (filter_length_lt
      (fun m => negb (String.eqb (id m) (id (memory first))))
      (slots this) (memory first) (nth_error_In _ _ Hi)) as Hlt.
    cbv beta in Hlt. rewrite String.eqb_refl in Hlt. specialize (Hlt eq_refl).
    simpl. lia.
  - intros Hu.
    pose proof (filter_id_removes_at (slots this) i (memory first) Hu Hi)
      as Hrm.
    destruct (removes_at_split _ _ _ _ Hi Hrm) as (l1 & l2 & Hb & Ha).
    exists l1, (memory first), l2. split; [exact Hb |].
    unfold r. rewrite Hslots, Ha, <- app_assoc. reflexivity.
Qed.

(** The store of capacity 2 after two inserts. *)
Lemma capacity_bound_witness :
  1 <= 2
  /\ Z.of_nat
       (List.length
          (slots
             (fst (run [OpAdd "one" "task" (Some 3) None;
                        OpAdd "two" "task" None None]
                       (constructor (Some 2)) ticking)))) <= 2.
Proof.
  split; [lia |].
  apply (capacity_bound 2
           [OpAdd "one" "task" (Some 3) None; OpAdd "two" "task" None None]
           ticking).
  lia.
Defined.

(** Two inserts into a new store of capacity 2 or more. *)
Lemma add_twice (C : Z) (c1 k1 c2 k2 : string) (p1 p2 : option Z)
    (t1 t2 : option (list string)) (e : Env) :
  2 <= C ->
  let r1 := add (constructor (Some C)) c1 k1 p1 t1 e in
  let r2 := add (snd (fst r1)) c2 k2 p2 t2 (snd r1) in
  slots (snd (fst r2)) = [fst (fst r1); fst (fst r2)]
  /\ maxSlots (snd (fst r2)) = C
  /\ snd r1 = built e
  /\ snd r2 = built (built e).
Proof.
  intros HC r1 r2.
  destruct (add_slots_room (constructor (Some C)) c1 k1 p1 t1 e)
    as [Hs1 He1]; [simpl; lia |].
  fold r1 in Hs1, He1. cbn [constructor slots app] in Hs1.
  pose proof (add_maxSlots (constructor (Some C)) c1 k1 p1 t1 e) as Hm1.
  fold r1 in Hm1. cbn [constructor maxSlots] in Hm1.
  destruct (add_slots_room (snd (fst r1)) c2 k2 p2 t2 (snd r1))
    as [Hs2 He2]; [rewrite Hs1, Hm1; simpl; lia |].
  fold r2 in Hs2, He2. rewrite Hs1 in Hs2. cbn [app] in Hs2.
  split; [exact Hs2 |]. split.
  - unfold r2. rewrite add_maxSlots. exact Hm1.
  - split; [exact He1 |]. rewrite He2, He1. reflexivity.
Qed.

(** Two inserts that read the same clock value and draw random texts with
    the same tail create two entries with one identifier. *)
Lemma add_twice_frozen (C : Z) (c1 k1 c2 k2 : string) (p1 p2 : option Z)
    (t1 t2 : option (list string)) :
  2 <= C ->
  let r1 := add (constructor (Some C)) c1 k1 p1 t1 frozen in
  let r2 := add (snd (fst r1)) c2 k2 p2 t2 (snd r1) in
  slots (snd (fst r2)) = [fst (fst r1); fst (fst r2)]
  /\ id (fst (fst r1)) = "wm_1753413017366_82mvyr"
  /\ id (fst (fst r2)) = "wm_1753413017366_82mvyr"
  /\ maxSlots (snd (fst r2)) = C
  /\ snd r2 = built (built frozen).
Proof.
  intros HC r1 r2.
  destruct (add_twice C c1 k1 c2 k2 p1 p2 t1 t2 frozen HC)
    as (Hs & Hm & He1 & He2).
  fold r1 in Hs, Hm, He1, He2. fold r2 in Hs, Hm, He2.
  destruct (add_entry (constructor (Some C)) c1 k1 p1 t1 frozen) as [Hi1 _].
  destruct (add_entry (snd (fst r1)) c2 k2 p2 t2 (snd r1)) as [Hi2 _].
  fold r1 in Hi1. fold r2 in Hi2. rewrite He1 in Hi2.
  repeat split; assumption.
Qed.

(** Counterexample to C1 as stated: capacity 2, the inserts fall in one
    millisecond and the random texts of the first two have the same tail, so
    the first two entries share their identifier; the third insert finds the
    store full and removes both. *)
Lemma capacity_two_entries_evicted :
  let r1 := add (constructor (Some 2)) "one" "task" (Some 3) None frozen in
  let r2 := add (snd (fst r1)) "two" "task" (Some 3) None (snd r1) in
  let r3 := add (snd (fst r2)) "three" "task" (Some 3) None (snd r2) in
  maxSlots (snd (fst r2)) = 2
  /\ List.length (slots (snd (fst r2))) = 2%nat
  /\ slots (snd (fst r3)) = [fst (fst r3)]
  /\ ~ evicts_one_then_appends
         (slots (snd (fst r2))) (slots (snd (fst r3))) (fst (fst r3)).
Proof.
  intros r1 r2 r3.
  destruct (add_twice_frozen 2 "one" "task" "two" "task" (Some 3) (Some 3)
              None None) as (Hs & Hi1 & Hi2 & Hm & _); [lia |].
  fold r1 in Hs, Hi1, Hi2, Hm. fold r2 in Hs, Hi2, Hm.
  assert (H3 : slots (snd (fst r3)) = [fst (fst r3)]).
  { apply (add_same_id _ _ _ _ _ _ "wm_1753413017366_82mvyr").
    - rewrite Hm, Hs. simpl. lia.
    - rewrite Hs. discriminate.
    - rewrite Hs. intros m [<- | [<- | []]]; assumption. }
  split; [exact Hm |]. split; [rewrite Hs; reflexivity |].
  split; [exact H3 |].
  intros (l1 & x & l2 & Hb & Ha).
  apply (f_equal (@List.length Memory)) in Hb, Ha.
  rewrite Hs in Hb. rewrite H3 in Ha.
  rewrite !length_app in *. simpl in *. lia.
Qed.

(* ================================================================== *)
(** ** Unique identifiers (C6) *)

Lemma fresh_ids_firstn (ops : list Op) :
  forall (n : nat) (this : WorkingMemory) (e : Env),
    fresh_ids ops this e -> fresh_ids (firstn n ops) this e.
Proof.
  induction ops as [| op ops IH]; intros [| n] this e H; simpl; auto.
  destruct H as [Hop Hrest]. split; [exact Hop |]. apply IH. exact Hrest.
Qed.

(** C6, amended.  After every operation of a sequence run on a new store,
    the identifiers of the live entries are pairwise distinct, provided each
    insert of the sequence generated an identifier (clock value and random
    suffix) that no live entry carried at that moment.  The class itself
    never compares a new identifier with the live ones. *)
Theorem unique_ids_when_fresh (C : option Z) (ops : list Op) (e : Env) :
  fresh_ids ops (constructor C) e ->
  forall n : nat, unique_ids (fst (run (firstn n ops) (constructor C) e)).
Proof.
  intros Hf n. apply run_unique_ids.
  - unfold unique_ids. simpl. constructor.
  - apply fresh_ids_firstn. exact Hf.
Qed.

Lemma run_two_adds (this : WorkingMemory) (e : Env) (c1 k1 c2 k2 : string)
    (p1 p2 : option Z) (t1 t2 : option (list string)) :
  run [OpAdd c1 k1 p1 t1; OpAdd c2 k2 p2 t2] this e
  = (snd (fst (add (snd (fst (add this c1 k1 p1 t1 e))) c2 k2 p2 t2
                   (snd (add this c1 k1 p1 t1 e)))),
     snd (add (snd (fst (add this c1 k1 p1 t1 e))) c2 k2 p2 t2
              (snd (add this c1 k1 p1 t1 e)))).
Proof.
  rewrite !run_cons. unfold step. rewrite !bind_eq. reflexivity.
Qed.

(** Two inserts one clock reading apart. *)
Lemma unique_ids_when_fresh_witness :
  fresh_ids [OpAdd "one" "task" (Some 3) None; OpAdd "two" "task" None None]
            (constructor None) ticking
  /\ unique_ids
       (fst (run (firstn 2 [OpAdd "one" "task" (Some 3) None;
                            OpAdd "two" "task" None None])
                 (constructor None) ticking)).
Proof.
  assert (H : fresh_ids
                [OpAdd "one" "task" (Some 3) None;
                 OpAdd "two" "task" None None]
                (constructor None) ticking).
  { cbn [fresh_ids]. split; [intros [] |]. split; [| exact I].
    unfold step. io_step.
    destruct (add_slots_room (constructor None) "one" "task" (Some 3) None
                ticking) as [Hs He]; [simpl; lia |].
    destruct (add_entry (constructor None) "one" "task" (Some 3) None ticking)
      as [Hi _].
    rewrite Hs, He. cbn [constructor slots map app]. rewrite Hi.
    intros [Heq | []]. vm_compute in Heq. discriminate Heq. }
  split; [exact H |].
  apply (unique_ids_when_fresh None _ ticking H 2%nat).
Defined.

(** Counterexample to C6 as stated: two inserts that fall in one
    millisecond and draw random texts with the same tail leave two live
    entries with one identifier. *)
Lemma ids_collide_in_one_millisecond :
  let this :=
    fst (run [OpAdd "one" "task" (Some 3) None;
              OpAdd "two" "task" (Some 3) None]
             (constructor None) frozen) in
  map id (slots this)
  = ["wm_1753413017366_82mvyr"; "wm_1753413017366_82mvyr"]
  /\ ~ unique_ids this.
Proof.
  intros this.
  destruct (add_twice_frozen 7 "one" "task" "two" "task" (Some 3) (Some 3)
              None None) as (Hs & Hi1 & Hi2 & _); [lia |].
  assert (Hm : map id (slots this)
               = ["wm_1753413017366_82mvyr"; "wm_1753413017366_82mvyr"]).
  { unfold this. rewrite run_two_adds. cbn [fst].
    change (constructor None) with (constructor (Some 7)).
    rewrite Hs. cbn [map]. rewrite Hi1, Hi2. reflexivity. }
  split; [exact Hm |].
  unfold unique_ids. rewrite Hm. intros Hnd.
  inversion Hnd as [| ? ? Hnotin _]; subst. apply Hnotin. left. reflexivity.
Qed.

(* ================================================================== *)
(** ** Eviction of the lowest value (C2) *)

(** C2, amended.  On an empty store [evictLowestValue] removes nothing and
    returns no entry.  On a store that is not empty and whose scores are all
    numbers, it scores every live entry (the [j]-th at the [j]-th reading of
    the clock), returns the entry of lowest score, the one of lowest position
    among those with that score, and removes every live entry that carries
    the identifier of the returned entry: exactly that entry when the live
    identifiers are pairwise distinct.  The result is a function of the store
    and of the clock readings alone. *)
Theorem evictLowestValue_lowest_first (this : WorkingMemory) (e : Env) :
  (slots this = [] -> evictLowestValue this e = (None, this, e))
  /\ (slots this <> [] ->
      (forall j m, nth_error (slots this) j = Some m ->
                   JS.is_number (score_now e j m)) ->
      exists i evicted,
        nth_error (slots this) i = Some evicted
        /\ fst (fst (evictLowestValue this e)) = Some evicted
        /\ (forall j m, nth_error (slots this) j = Some m ->
                        JS.le (score_now e i evicted) (score_now e j m))
        /\ (forall j m, (j < i)%nat -> nth_error (slots this) j = Some m ->
                        JS.lt (score_now e i evicted) (score_now e j m))
        /\ slots (snd (fst (evictLowestValue this e)))
           = filter (fun m => negb (String.eqb (id m) (id evicted)))
                    (slots this)
        /\ (unique_ids this ->
            removes_at i (slots this)
                       (slots (snd (fst (evictLowestValue this e)))))
        /\ (forall e', clock e' = clock e -> ticks e' = ticks e ->
                       fst (evictLowestValue this e')
                       = fst (evictLowestValue this e))).
Proof.
  split; [apply evictLowestValue_empty |].
  intros Hne Hnum.
  destruct (evictLowestValue_lowest this e Hne Hnum)
    as (i & evicted & Hi & Hr & Hle & Hlt).
  exists i, evicted. rewrite Hr. cbn [fst snd slots].
  repeat split; try assumption.
  - intros Hu. apply filter_id_removes_at; assumption.
  - intros e' Hc Ht. rewrite <- Hr. apply evictLowestValue_clock; assumption.
Qed.

Lemma sample_task_numeric (e : Env) (j : nat) (i : string) (p c a : Z)
    (n : nat) :
  JS.is_number (score_now e j (sample i "task" p c a n)).
Proof.
  unfold score_now. rewrite calculateValue_formula by reflexivity. exact I.
Qed.

(** A store of two task entries, and the empty store. *)
Lemma evictLowestValue_lowest_first_witness :
  (exists evicted,
     fst (fst (evictLowestValue
                 (mkWorkingMemory 7 [sample "wm_1_a" "task" 3 0 0 0;
                                     sample "wm_2_b" "task" 5 0 0 0])
                 ticking)) = Some evicted)
  /\ evictLowestValue (constructor None) ticking
     = (None, constructor None, ticking).
Proof.
  split.
  - destruct (proj2 (evictLowestValue_lowest_first
                       (mkWorkingMemory 7 [sample "wm_1_a" "task" 3 0 0 0;
                                           sample "wm_2_b" "task" 5 0 0 0])
                       ticking))
      as (i & evicted & _ & Hr & _).
    + discriminate.
    + intros [| [| [| j]]] m Hm; simpl in Hm; try discriminate;
        injection Hm as <-; apply sample_task_numeric.
    + exists evicted. exact Hr.
  - apply (proj1 (evictLowestValue_lowest_first (constructor None) ticking)).
    reflexivity.
Defined.

(** Counterexample to C2 as stated: a store whose two entries were inserted
    in one millisecond with random texts of the same tail.  One eviction
    removes both entries, not only the one of lowest score. *)
Lemma eviction_removes_two_entries :
  let r1 := add (constructor None) "one" "task" (Some 3) None frozen in
  let r2 := add (snd (fst r1)) "two" "result" (Some 1) None (snd r1) in
  let r := evictLowestValue (snd (fst r2)) (snd r2) in
  List.length (slots (snd (fst r2))) = 2%nat
  /\ slots (snd (fst r)) = []
  /\ forall i, ~ removes_at i (slots (snd (fst r2))) (slots (snd (fst r))).
Proof.
  intros r1 r2 r.
  destruct (add_twice_frozen 7 "one" "task" "two" "result" (Some 3) (Some 1)
              None None) as (Hs & Hi1 & Hi2 & _); [lia |].
  change (constructor (Some 7)) with (constructor None) in Hs, Hi1, Hi2.
  fold r1 in Hs, Hi1, Hi2. fold r2 in Hs, Hi2.
  assert (Hr : slots (snd (fst r)) = []).
  { apply (evictLowestValue_same_id _ _ "wm_1753413017366_82mvyr").
    - rewrite Hs. discriminate.
    - rewrite Hs. intros m [<- | [<- | []]]; assumption. }
  split; [rewrite Hs; reflexivity |]. split; [exact Hr |].
  intros i Hrm. unfold removes_at in Hrm. rewrite Hr, Hs in Hrm.
  destruct i as [| [| i]]; discriminate Hrm.
Qed.

(* ================================================================== *)
(** ** The scoring formula (C3) and age monotonicity (C8) *)

(** For the six listed categories and for every other category that is not a
    property name of [Object.prototype], the class computes the formula of
    the specification: the four weighted terms, summed. *)
Lemma calculateValue_is_spec_score (m : Memory) (e : Env) :
  inherited (category (metaTags m)) = false ->
  fst (calculateValue m e) = JS.Num (spec_score m (clock e (ticks e))).
Proof.
  intros H. rewrite calculateValue_formula by exact H. reflexivity.
Qed.

(** C3.  The entry inserted with category ["constructor"] does not receive
    the score of the formula: the table lookup answers with the inherited
    property [constructor] of the literal, an object, which [|| 0.5] keeps,
    and the product of an object by 0.2 is [NaN].  The specification gives
    this category the weight 0.5. *)
Theorem calculateValue_constructor_category (e0 e : Env) :
  let m := fst (fst (add (constructor None) "note" "constructor" (Some 4)
                         None e0)) in
  category (metaTags m) = "constructor"
  /\ spec_weight (category (metaTags m)) = 0.5%R
  /\ fst (calculateValue m e) = JS.NaN
  /\ fst (calculateValue m e) <> JS.Num (spec_score m (clock e (ticks e))).
Proof.
  intros m.
  destruct (add_entry (constructor None) "note" "constructor" (Some 4) None e0)
    as (_ & _ & _ & Hk & _).
  fold m in Hk.
  assert (Hn : fst (calculateValue m e) = JS.NaN).
  { rewrite calculateValue_inherited; [reflexivity |]. rewrite Hk. reflexivity. }
  split; [exact Hk |]. split; [rewrite Hk; reflexivity |].
  split; [exact Hn |]. rewrite Hn. discriminate.
Qed.

Lemma exp_monotone (x y : R) : (x <= y)%R -> (exp x <= exp y)%R.
Proof.
  intros [Hlt | ->]; [left; apply exp_increasing; exact Hlt | right; reflexivity].
Qed.

(** Outside the inherited names, the entry touched longer ago never scores
    higher. *)
Lemma calculateValue_age_monotone (older newer : Memory) (e : Env) :
  inherited (category (metaTags older)) = false ->
  same_but_lastAccessed older newer ->
  lastAccessed (metadata older) <= lastAccessed (metadata newer) ->
  JS.le (fst (calculateValue older e)) (fst (calculateValue newer e)).
Proof.
  intros Hk (_ & Hp & _ & Hm & _ & _ & Hn & _) Hle.
  rewrite !calculateValue_is_spec_score by (rewrite <- ?Hm; exact Hk).
  unfold JS.le, spec_score. rewrite Hp, Hm, Hn.
  assert (Hexp :
    (exp (- IZR (clock e (ticks e) - lastAccessed (metadata older)) / 3600000)
     <= exp (- IZR (clock e (ticks e) - lastAccessed (metadata newer))
             / 3600000))%R).
  { apply exp_monotone.
    assert (IZR (clock e (ticks e) - lastAccessed (metadata newer))
            <= IZR (clock e (ticks e) - lastAccessed (metadata older)))%R
      by (apply IZR_le; lia).
    lra. }
  lra.
Qed.

(** C8.  Two entries with category ["toString"] that differ in
    [lastAccessed] only: both scores are [NaN], and [NaN <= NaN] is false.
    The cause is the table lookup of [calculateValue] (see
    [calculateValue_constructor_category]); for every category outside the
    inherited names the order holds ([calculateValue_age_monotone]). *)
Theorem age_order_lost_on_inherited_category (e : Env) :
  let older := sample "wm_1_a" "toString" 4 0 0 0 in
  let newer := sample "wm_1_a" "toString" 4 0 60000 0 in
  same_but_lastAccessed older newer
  /\ lastAccessed (metadata older) <= lastAccessed (metadata newer)
  /\ fst (calculateValue older e) = JS.NaN
  /\ fst (calculateValue newer e) = JS.NaN
  /\ ~ JS.le (fst (calculateValue older e)) (fst (calculateValue newer e)).
Proof.
  intros older newer.
  assert (Ho : fst (calculateValue older e) = JS.NaN)
    by (rewrite calculateValue_inherited; reflexivity).
  assert (Hn : fst (calculateValue newer e) = JS.NaN)
    by (rewrite calculateValue_inherited; reflexivity).
  split; [unfold same_but_lastAccessed; repeat split |].
  split; [simpl; lia |]. split; [exact Ho |]. split; [exact Hn |].
  rewrite Ho, Hn. simpl. tauto.
Qed.

(* ================================================================== *)
(** ** Access accounting (C4) *)

Lemma find_from_exists {A : Type} (p : A -> bool) (l : list A) :
  forall (k : nat) (x : A),
    In x l -> p x = true -> exists i y, find_from p l k = Some (i, y).
Proof.
  induction l as [| z l IH]; intros k x Hin Hp; [destruct Hin |].
  simpl. destruct (p z) eqn:Ez; [eauto |].
  destruct Hin as [-> | Hin]; [congruence |].
  exact (IH (S k) x Hin Hp).
Qed.

Lemma unique_ids_same_entry (l : list Memory) (x y : Memory) :
  NoDup (map id l) -> In x l -> In y l -> id x = id y -> x = y.
Proof.
  induction l as [| z l IH]; intros Hnd Hx Hy Hid; [destruct Hx |].
  simpl in Hnd. inversion Hnd as [| ? ? Hz Hl]; subst.
  destruct Hx as [-> | Hx], Hy as [-> | Hy].
  - reflexivity.
  - exfalso. apply Hz. rewrite Hid. apply in_map. exact Hy.
  - exfalso. apply Hz. rewrite <- Hid. apply in_map. exact Hx.
  - apply IH; assumption.
Qed.

(** C4.  When some live entry carries [memoryId], [access] finds the first
    such entry [m], at position [i] (the only one when identifiers are
    pairwise distinct), and returns it with [accessCount] incremented by one
    and [lastAccessed] set to the clock value read by the call; the updated
    entry takes the place of [m] in the store, and every other entry, the
    order and the capacity are unchanged.  When no live entry carries
    [memoryId], the store and the environment are unchanged and the result
    is [undefined] ([None]); no step of the method can raise. *)
Theorem access_accounting (this : WorkingMemory) (memoryId : string)
    (e : Env) :
  (forall m0 : Memory,
     In m0 (slots this) ->
     id m0 = memoryId ->
     exists (i : nat) (m m' : Memory),
       nth_error (slots this) i = Some m
       /\ id m = memoryId
       /\ (forall j mj, (j < i)%nat -> nth_error (slots this) j = Some mj ->
                        id mj <> memoryId)
       /\ (unique_ids this -> m = m0)
       /\ access this memoryId e
          = (Some m',
             mkWorkingMemory (maxSlots this) (replace_at i m' (slots this)),
             advance 1 e)
       /\ accessCount (metadata m') = S (accessCount (metadata m))
       /\ lastAccessed (metadata m') = clock e (ticks e)
       /\ id m' = id m
       /\ priority m' = priority m
       /\ content m' = content m
       /\ metaTags m' = metaTags m
       /\ systemTags m' = systemTags m
       /\ created (metadata m') = created (metadata m)
       /\ source (metadata m') = source (metadata m)
       /\ nth_error (replace_at i m' (slots this)) i = Some m'
       /\ (forall j, j <> i ->
                     nth_error (replace_at i m' (slots this)) j
                     = nth_error (slots this) j)
       /\ List.length (replace_at i m' (slots this))
          = List.length (slots this))
  /\ ((forall m, In m (slots this) -> id m <> memoryId) ->
      access this memoryId e = (None, this, e)).
Proof.
  split; [| apply access_missing].
  intros m0 Hin0 Hid0.
  destruct (find_from_exists (fun x => String.eqb (id x) memoryId)
              (slots this) 0 m0 Hin0) as (i & m & Hfind);
    [apply String.eqb_eq; exact Hid0 |].
  destruct (find_from_Some _ _ _ _ _ Hfind) as (j & -> & Hi & Hp & Hbefore).
  cbn [Nat.add] in *. apply String.eqb_eq in Hp.
  exists j, m. eexists.
  split; [exact Hi |]. split; [exact Hp |].
  split.
  { intros j' mj Hlt Hj. apply String.eqb_neq. exact (Hbefore j' mj Hlt Hj). }
  split.
  { intros Hu. apply (unique_ids_same_entry (slots this)); try assumption.
    - exact (nth_error_In _ _ Hi).
    - congruence. }
  split; [apply (access_found this memoryId e j m Hfind) |].
  cbn [id priority content metaTags systemTags metadata created lastAccessed
       accessCount source].
  repeat split.
  - rewrite replace_at_nth, Nat.eqb_refl, Hi. reflexivity.
  - intros j' Hj'. rewrite replace_at_nth.
    destruct (Nat.eqb_spec j' j); [contradiction | reflexivity].
  - apply replace_at_length.
Qed.

(** A store of two entries: an access to the second one, and an access to an
    identifier that no entry carries. *)
Lemma access_accounting_witness :
  (exists m',
     fst (fst (access
                 (mkWorkingMemory 7 [sample "wm_1_a" "task" 3 0 0 0;
                                     sample "wm_2_b" "task" 5 0 0 0])
                 "wm_2_b" ticking)) = Some m'
     /\ accessCount (metadata m') = 1%nat)
  /\ access (mkWorkingMemory 7 [sample "wm_1_a" "task" 3 0 0 0;
                                sample "wm_2_b" "task" 5 0 0 0])
            "wm_9_z" ticking
     = (None,
        mkWorkingMemory 7 [sample "wm_1_a" "task" 3 0 0 0;
                           sample "wm_2_b" "task" 5 0 0 0],
        ticking).
Proof.
  split.
  - destruct (proj1 (access_accounting
                       (mkWorkingMemory 7 [sample "wm_1_a" "task" 3 0 0 0;
                                           sample "wm_2_b" "task" 5 0 0 0])
                       "wm_2_b" ticking)
                    (sample "wm_2_b" "task" 5 0 0 0))
      as (i & m & m' & _ & _ & _ & Hsame & Ha & Hc & _).
    + right. left. reflexivity.
    + reflexivity.
    + exists m'. rewrite Ha. split; [reflexivity |].
      rewrite Hc, (Hsame ltac:(unfold unique_ids; simpl;
                               repeat constructor; simpl;
                               intuition discriminate)).
      reflexivity.
  - apply (proj2 (access_accounting
                    (mkWorkingMemory 7 [sample "wm_1_a" "task" 3 0 0 0;
                                        sample "wm_2_b" "task" 5 0 0 0])
                    "wm_9_z" ticking)).
    intros m [<- | [<- | []]]; discriminate.
Defined.

(* ================================================================== *)
(** ** Clearing (C5) *)

(** C5.  The [clear] action empties the store whatever it held: its size is
    0 afterwards, [list] returns an empty array with or without values, the
    capacity is kept, and the answer reports the number of entries
    removed. *)
Theorem clear_empties_store (toFixed : JS.number -> nat -> string)
    (this : WorkingMemory) (verbose : option bool) (e : Env) :
  let r := Handler.clear this in
  slots (snd r) = []
  /\ List.length (slots (snd r)) = 0%nat
  /\ maxSlots (snd r) = maxSlots this
  /\ Handler.content (fst r)
     = [Handler.mkTextContent "text"
          ("Cleared " ++ JS.ToString (Z.of_nat (List.length (slots this)))
           ++ " memories from working memory.")]
  /\ list_ toFixed (snd r) verbose e
     = (match verbose with
        | Some true => Valued []
        | _ => Entries []
        end, e)
  /\ listing_length (fst (list_ toFixed (snd r) verbose e)) = 0%nat.
Proof.
  intros r. repeat split; destruct verbose as [[|] |]; reflexivity.
Qed.

(* ================================================================== *)
(** ** Normalisation of inserted data (C7, C10) *)

(** C7.  Whatever the content and the integer priority, [add] creates and
    stores an entry: its priority is the given one clamped to [1, 7], its
    content is the first 200 characters of the given one. *)
Theorem add_normalises (this : WorkingMemory) (c k : string) (p : Z)
    (t : option (list string)) (e : Env) :
  let r := add this c k (Some p) t e in
  let m := fst (fst r) in
  1 <= priority m <= 7
  /\ (p < 1 -> priority m = 1)
  /\ (1 <= p <= 7 -> priority m = p)
  /\ (7 < p -> priority m = 7)
  /\ list_ascii_of_string (content m) = firstn 200 (list_ascii_of_string c)
  /\ String.length (content m) = Nat.min 200 (String.length c)
  /\ (exists before, slots (snd (fst r)) = (before ++ [m])%list).
Proof.
  intros r m.
  destruct (add_entry this c k (Some p) t e) as (_ & Hp & Hc & _).
  fold r in Hp, Hc. fold m in Hp, Hc.
  rewrite Hp, Hc.
  split; [lia |]. split; [lia |]. split; [lia |]. split; [lia |].
  split; [apply substring_prefix |].
  split; [apply substring_prefix_length |].
  destruct (add_slots this c k (Some p) t e) as [q Hq].
  exists (filter q (slots this)). exact Hq.
Qed.

(** Priorities 20, -3 and 4, and a content of 350 characters. *)
Lemma add_normalises_witness :
  priority (fst (fst (add (constructor None) "note" "task" (Some 20) None
                          ticking))) = 7
  /\ priority (fst (fst (add (constructor None) "note" "task" (Some (-3)) None
                             ticking))) = 1
  /\ priority (fst (fst (add (constructor None) "note" "task" (Some 4) None
                             ticking))) = 4
  /\ String.length
       (content (fst (fst (add (constructor None)
                               (string_of_list_ascii (repeat "a"%char 350))
                               "task" (Some 4) None ticking)))) = 200%nat.
Proof.
  split; [| split; [| split]].
  - apply (add_normalises (constructor None) "note" "task" 20 None ticking).
    lia.
  - apply (add_normalises (constructor None) "note" "task" (-3) None ticking).
    lia.
  - apply (add_normalises (constructor None) "note" "task" 4 None ticking).
    lia.
  - destruct (add_normalises (constructor None)
                (string_of_list_ascii (repeat "a"%char 350))
                "task" 4 None ticking) as (_ & _ & _ & _ & _ & Hl & _).
    rewrite Hl. reflexivity.
Defined.

(** C10.  When the priority argument is omitted or [undefined], the entry
    that [add] creates has priority 5. *)
Theorem add_default_priority (this : WorkingMemory) (c k : string)
    (t : option (list string)) (e : Env) :
  priority (fst (fst (add this c k None t e))) = 5.
Proof.
  destruct (add_entry this c k None t e) as (_ & Hp & _).
  rewrite Hp. reflexivity.
Qed.

(* ================================================================== *)
(** ** The eviction scenario (C9) *)

Lemma score_now_eq (e : Env) (j : nat) (m : Memory) :
  inherited (category (metaTags m)) = false ->
  score_now e j m = JS.Num (spec_score m (clock e (j + ticks e))).
Proof.
  intros H. unfold score_now. rewrite calculateValue_formula by exact H.
  reflexivity.
Qed.

(** Bounds on the score of an entry that was never accessed. *)
Lemma spec_score_unaccessed_upper (m : Memory) (now : Z) :
  accessCount (metadata m) = 0%nat ->
  lastAccessed (metadata m) <= now ->
  (spec_score m now
   <= 0.3 + 0.3 * (IZR (priority m) / 7)
      + 0.2 * spec_weight (category (metaTags m)))%R.
Proof.
  intros Hn Hle. unfold spec_score. rewrite Hn. simpl Z.add. rewrite ln_1.
  assert (Hexp : (exp (- IZR (now - lastAccessed (metadata m)) / 3600000)
                  <= 1)%R).
  { rewrite <- exp_0. apply exp_monotone.
    assert (0 <= IZR (now - lastAccessed (metadata m)))%R
      by (apply IZR_le; lia).
    lra. }
  lra.
Qed.

Lemma spec_score_unaccessed_lower (m : Memory) (now : Z) :
  accessCount (metadata m) = 0%nat ->
  (0.3 * (IZR (priority m) / 7) + 0.2 * spec_weight (category (metaTags m))
   < spec_score m now)%R.
Proof.
  intros Hn. unfold spec_score. rewrite Hn. simpl Z.add. rewrite ln_1.
  pose proof (exp_pos (- IZR (now - lastAccessed (metadata m)) / 3600000)).
  lra.
Qed.

(** C9, amended.  Capacity 2; insert A (decision, priority 7), then B
    (result, priority 1), then C (task, priority 5), with no access in
    between.  Provided the clock does not run backwards and A and B received
    different identifiers, the third insert evicts B and the store then
    holds exactly A and C, in this order. *)
Theorem eviction_scenario (cA cB cC : string)
    (tA tB tC : option (list string)) (e : Env) :
  let rA := add (constructor (Some 2)) cA "decision" (Some 7) tA e in
  let rB := add (snd (fst rA)) cB "result" (Some 1) tB (snd rA) in
  let rC := add (snd (fst rB)) cC "task" (Some 5) tC (snd rB) in
  monotone_clock e ->
  id (fst (fst rA)) <> id (fst (fst rB)) ->
  fst (fst (evictLowestValue (snd (fst rB)) (built (snd rB))))
  = Some (fst (fst rB))
  /\ slots (snd (fst rC)) = [fst (fst rA); fst (fst rC)]
  /\ List.length (slots (snd (fst rC))) = 2%nat.
Proof.
  intros rA rB rC Hmono Hids.
  destruct (add_twice 2 cA "decision" cB "result" (Some 7) (Some 1) tA tB e)
    as (Hs & Hm & HeA & HeB); [lia |].
  fold rA in Hs, Hm, HeA, HeB. fold rB in Hs, Hm, HeB.
  destruct (add_entry (constructor (Some 2)) cA "decision" (Some 7) tA e)
    as (_ & HpA & _ & HkA & _ & _ & _ & HnA).
  destruct (add_entry (snd (fst rA)) cB "result" (Some 1) tB (snd rA))
    as (_ & HpB & _ & HkB & _ & _ & HlB & HnB).
  fold rA in HpA, HkA, HnA. fold rB in HpB, HkB, HlB, HnB.
  set (A := fst (fst rA)) in *. set (B := fst (fst rB)) in *.
  set (this2 := snd (fst rB)) in *. set (e3 := built (snd rB)).
  (* the scores at the third insert *)
  assert (HsA : score_now e3 0 A
                = JS.Num (spec_score A (clock e3 (0 + ticks e3))))
    by (apply score_now_eq; rewrite HkA; reflexivity).
  assert (HsB : score_now e3 1 B
                = JS.Num (spec_score B (clock e3 (1 + ticks e3))))
    by (apply score_now_eq; rewrite HkB; reflexivity).
  assert (Hlow : (spec_score B (clock e3 (1 + ticks e3))
                  < spec_score A (clock e3 (0 + ticks e3)))%R).
  { pose proof (spec_score_unaccessed_lower A (clock e3 (0 + ticks e3)) HnA)
      as HA.
    assert (HB := spec_score_unaccessed_upper B (clock e3 (1 + ticks e3)) HnB).
    rewrite HpA, HkA in HA. rewrite HpB, HkB in HB.
    assert (HBle : lastAccessed (metadata B) <= clock e3 (1 + ticks e3)).
    { rewrite HlB. unfold e3. rewrite HeB, HeA. cbn [built clock ticks].
      apply Hmono. lia. }
    specialize (HB HBle).
    change (spec_weight "decision") with 1.0%R in HA.
    change (spec_weight "result") with 0.4%R in HB.
    change (Z.min (Z.max 7 1) 7) with 7 in HA.
    change (Z.min (Z.max 1 1) 7) with 1 in HB.
    lra. }
  destruct (evictLowestValue_lowest this2 e3) as (i & ev & Hi & Hr & Hle & _).
  { rewrite Hs. discriminate. }
  { rewrite Hs. intros [| [| j]] m Hj; simpl in Hj; try discriminate.
    - injection Hj as <-. rewrite HsA. exact I.
    - injection Hj as <-. rewrite HsB. exact I.
    - destruct j; discriminate. }
  rewrite Hs in Hi, Hle.
  assert (Hev : ev = B).
  { destruct i as [| [| i]]; simpl in Hi.
    - injection Hi as <-. specialize (Hle 1%nat B eq_refl).
      rewrite HsA, HsB in Hle. unfold JS.le in Hle. lra.
    - injection Hi as <-. reflexivity.
    - destruct i; discriminate. }
  subst ev.
  assert (Hkeep : filter (fun m => negb (String.eqb (id m) (id B)))
                         (slots this2) = [A]).
  { rewrite Hs. cbn [filter].
    destruct (String.eqb_spec (id A) (id B)) as [E | _];
      [exfalso; exact (Hids E) |].
    rewrite String.eqb_refl. reflexivity. }
  rewrite Hkeep in Hr.
  assert (HC : slots (snd (fst rC)) = [A; fst (fst rC)]).
  { pose proof (add_eq this2 cC "task" (Some 5) tC (snd rB)) as E.
    cbv zeta in E. fold rC in E.
    destruct (Z.geb_spec (Z.of_nat (List.length (slots this2)))
                         (maxSlots this2)) as [_ | Hlt];
      [| rewrite Hm, Hs in Hlt; simpl in Hlt; lia].
    rewrite E. cbn [fst snd slots]. fold e3. rewrite Hr. reflexivity. }
  split; [rewrite Hr; reflexivity |]. split; [exact HC |].
  rewrite HC. reflexivity.
Qed.

Lemma monotone_clock_ticking : monotone_clock ticking.
Proof. intros i j Hij. unfold ticking. cbn [clock]. lia. Qed.

(** The scenario with a clock that advances by one millisecond per
    reading. *)
Lemma eviction_scenario_witness :
  monotone_clock ticking
  /\ List.length
       (slots
          (snd (fst (add
            (snd (fst (add
               (snd (fst (add (constructor (Some 2)) "A" "decision" (Some 7)
                              None ticking)))
               "B" "result" (Some 1) None
               (snd (add (constructor (Some 2)) "A" "decision" (Some 7)
                         None ticking)))))
            "C" "task" (Some 5) None
            (snd (add
               (snd (fst (add (constructor (Some 2)) "A" "decision" (Some 7)
                              None ticking)))
               "B" "result" (Some 1) None
               (snd (add (constructor (Some 2)) "A" "decision" (Some 7)
                         None ticking)))))))) = 2%nat.
Proof.
  split; [exact monotone_clock_ticking |].
  assert (Hids :
    id (fst (fst (add (constructor (Some 2)) "A" "decision" (Some 7) None
                      ticking)))
    <> id (fst (fst (add
             (snd (fst (add (constructor (Some 2)) "A" "decision" (Some 7)
                            None ticking)))
             "B" "result" (Some 1) None
             (snd (add (constructor (Some 2)) "A" "decision" (Some 7)
                       None ticking)))))).
  { destruct (add_twice 2 "A" "decision" "B" "result" (Some 7) (Some 1)
                None None ticking) as (_ & _ & He & _); [lia |].
    destruct (add_entry (constructor (Some 2)) "A" "decision" (Some 7) None
                ticking) as [HiA _].
    destruct (add_entry
                (snd (fst (add (constructor (Some 2)) "A" "decision" (Some 7)
                               None ticking)))
                "B" "result" (Some 1) None
                (snd (add (constructor (Some 2)) "A" "decision" (Some 7)
                          None ticking))) as [HiB _].
    rewrite HiA, HiB, He. intros Heq. vm_compute in Heq. discriminate Heq. }
  destruct (eviction_scenario "A" "B" "C" None None None ticking
              monotone_clock_ticking Hids) as (_ & _ & Hlen).
  exact Hlen.
Defined.

(** Counterexample to C9 as stated: the three inserts of the scenario fall
    in one millisecond and the random texts drawn for A and B have the same
    tail.  A and B carry one identifier, the third insert removes both, and
    the store holds C alone. *)
Lemma eviction_scenario_colliding_ids :
  let rA := add (constructor (Some 2)) "A" "decision" (Some 7) None frozen in
  let rB := add (snd (fst rA)) "B" "result" (Some 1) None (snd rA) in
  let rC := add (snd (fst rB)) "C" "task" (Some 5) None (snd rB) in
  slots (snd (fst rC)) = [fst (fst rC)]
  /\ slots (snd (fst rC)) <> [fst (fst rA); fst (fst rC)]
  /\ List.length (slots (snd (fst rC))) = 1%nat.
Proof.
  intros rA rB rC.
  destruct (add_twice_frozen 2 "A" "decision" "B" "result" (Some 7) (Some 1)
              None None) as (Hs & Hi1 & Hi2 & Hm & _); [lia |].
  fold rA in Hs, Hi1, Hi2, Hm. fold rB in Hs, Hi2, Hm.
  assert (H3 : slots (snd (fst rC)) = [fst (fst rC)]).
  { apply (add_same_id _ _ _ _ _ _ "wm_1753413017366_82mvyr").
    - rewrite Hm, Hs. simpl. lia.
    - rewrite Hs. discriminate.
    - rewrite Hs. intros m [<- | [<- | []]]; assumption. }
  split; [exact H3 |]. rewrite H3. split; [discriminate | reflexivity].
Qed.

(* ================================================================== *)
(** ** Further properties of the store *)

Lemma In_replace_at {A : Type} (l : list A) :
  forall (i : nat) (y x : A), In x (replace_at i y l) -> x = y \/ In x l.
Proof.
  induction l as [| z l IH]; intros [| i] y x H; simpl in *; try tauto.
  - destruct H as [<- | H]; auto.
  - destruct H as [<- | H]; auto. destruct (IH i y x H); auto.
Qed.

Lemma add_entry_well_formed (this : WorkingMemory) (c k : string)
    (p : option Z) (t : option (list string)) (e : Env) :
  well_formed (fst (fst (add this c k p t e))).
Proof.
  destruct (add_entry this c k p t e) as (_ & Hp & Hc & _).
  unfold well_formed. rewrite Hp, Hc, substring_prefix_length. lia.
Qed.

Lemma in_slots_after_add (this : WorkingMemory) (c k : string)
    (p : option Z) (t : option (list string)) (e : Env) (x : Memory) :
  In x (slots (snd (fst (add this c k p t e)))) ->
  In x (slots this) \/ x = fst (fst (add this c k p t e)).
Proof.
  destruct (add_slots this c k p t e) as [q ->].
  rewrite in_app_iff. intros [H | [<- | []]]; [| auto].
  left. apply filter_In in H. tauto.
Qed.

Lemma in_slots_after_eviction (this : WorkingMemory) (e : Env) (x : Memory) :
  In x (slots (snd (fst (evictLowestValue this e)))) -> In x (slots this).
Proof.
  destruct (evictLowestValue_slots this e) as [q ->].
  intros H. apply filter_In in H. tauto.
Qed.

Lemma later_state_refl (x : Memory) : later_state x x.
Proof. unfold later_state. repeat split; auto. Qed.

(** An entry of the store after [access] is an entry of the store before,
    possibly touched once. *)
Lemma in_slots_after_access (this : WorkingMemory) (i : string) (e : Env)
    (x' : Memory) :
  In x' (slots (snd (fst (access this i e)))) ->
  exists x, In x (slots this) /\ later_state x x'.
Proof.
  unfold access.
  destruct (find_from _ _ _) as [[n x] |] eqn:Ef.
  - rewrite bind_eq. unfold ret. cbn [fst snd slots]. intros H.
    destruct (find_from_Some _ _ _ _ _ Ef) as (j & -> & Hj & _).
    apply In_replace_at in H. destruct H as [-> | H].
    + exists x. split; [exact (nth_error_In _ _ Hj) |].
      unfold later_state. cbn. repeat split; auto.
    + exists x'. split; [exact H | apply later_state_refl].
  - cbn [fst snd]. intros H. exists x'. split; [exact H |].
    apply later_state_refl.
Qed.

Lemma step_well_formed (op : Op) (this : WorkingMemory) (e : Env) :
  Forall well_formed (slots this) ->
  Forall well_formed (slots (fst (step op this e))).
Proof.
  rewrite !Forall_forall. intros Hw x.
  destruct op as [c k p t | i | |]; unfold step; io_step.
  - intros H. apply in_slots_after_add in H. destruct H as [H | ->].
    + exact (Hw x H).
    + apply add_entry_well_formed.
  - intros H. apply in_slots_after_access in H.
    destruct H as (x0 & H0 & (_ & Hp & Hc & _)).
    specialize (Hw x0 H0). unfold well_formed in *. rewrite Hp, Hc. exact Hw.
  - intros H. apply in_slots_after_eviction in H. exact (Hw x H).
  - simpl. tauto.
Qed.

(** X1.  Whatever the capacity and the operations run on a new store, every live
    entry has a priority within [1, 7] and a content of at most 200
    characters: entries are created by [add] only, and no operation rewrites
    these fields. *)
Theorem live_entries_well_formed (C : option Z) (ops : list Op) (e : Env) :
  Forall well_formed (slots (fst (run ops (constructor C) e))).
Proof.
  assert (H : forall (this : WorkingMemory) (e0 : Env),
            Forall well_formed (slots this) ->
            Forall well_formed (slots (fst (run ops this e0)))).
  { induction ops as [| op ops IH]; intros this e0 Hw; [exact Hw |].
    rewrite run_cons. apply IH. apply step_well_formed. exact Hw. }
  apply H. simpl. constructor.
Qed.

(** X2.  An entry found in the store after an operation is the entry that the
    operation created (for an insert), or an entry that was in the store
    before, with the same identifier, priority, content, category, tags and
    creation time, and an access count that has not decreased. *)
Theorem entries_only_age (op : Op) (this : WorkingMemory) (e : Env)
    (x' : Memory) :
  In x' (slots (fst (step op this e))) ->
  (exists x, In x (slots this) /\ later_state x x')
  \/ (exists c k p t,
        op = OpAdd c k p t /\ x' = fst (fst (add this c k p t e))).
Proof.
  destruct op as [c k p t | i | |]; unfold step; io_step; intros H.
  - apply in_slots_after_add in H. destruct H as [H | ->].
    + left. exists x'. split; [exact H | apply later_state_refl].
    + right. exists c, k, p, t. split; reflexivity.
  - left. exact (in_slots_after_access this i e x' H).
  - left. exists x'. split; [| apply later_state_refl].
    apply in_slots_after_eviction with (e := e). exact H.
  - destruct H.
Qed.

(** An access to the second of two entries: the entry found afterwards is a
    later state of it. *)
Lemma entries_only_age_witness :
  exists x,
    In x [sample "wm_1_a" "task" 3 0 0 0; sample "wm_2_b" "task" 5 0 0 0]
    /\ later_state x
         (mkMemory "wm_2_b" 5 "note"
            (mkMetaTags "working_memory" "session" "on_demand" "task"
                        "active" (JS.Num 0.2))
            [] (mkMetadata 0 1753413017366 1 "manual")).
Proof.
  destruct (entries_only_age (OpAccess "wm_2_b")
              (mkWorkingMemory 7 [sample "wm_1_a" "task" 3 0 0 0;
                                  sample "wm_2_b" "task" 5 0 0 0])
              ticking
              (mkMemory "wm_2_b" 5 "note"
                 (mkMetaTags "working_memory" "session" "on_demand" "task"
                             "active" (JS.Num 0.2))
                 [] (mkMetadata 0 1753413017366 1 "manual")))
    as [H | (c & k & p & t & Hop & _)].
  - right. left. reflexivity.
  - exact H.
  - discriminate Hop.
Defined.

(** X3.  Below capacity [add] evicts nothing: the store is the old one with the
    new entry appended, and the call has read the clock three times, drawn
    one random number and printed nothing. *)
Theorem add_below_capacity (this : WorkingMemory) (c k : string)
    (p : option Z) (t : option (list string)) (e : Env) :
  Z.of_nat (List.length (slots this)) < maxSlots this ->
  slots (snd (fst (add this c k p t e)))
  = (slots this ++ [fst (fst (add this c k p t e))])%list
  /\ maxSlots (snd (fst (add this c k p t e))) = maxSlots this
  /\ snd (add this c k p t e)
     = mkEnv (clock e) (entropy e) (3 + ticks e) (S (draws e)) (console e).
Proof.
  intros H. destruct (add_slots_room this c k p t e H) as [Hs He].
  split; [exact Hs |]. split; [apply add_maxSlots | exact He].
Qed.

Lemma add_below_capacity_witness :
  Z.of_nat (List.length (slots (constructor None))) < maxSlots (constructor None)
  /\ slots (snd (fst (add (constructor None) "note" "task" None None ticking)))
     = [fst (fst (add (constructor None) "note" "task" None None ticking))].
Proof.
  assert (H : Z.of_nat (List.length (slots (constructor None)))
              < maxSlots (constructor None)) by (simpl; lia).
  split; [exact H |].
  destruct (add_below_capacity (constructor None) "note" "task" None None
              ticking H) as (Hs & _).
  exact Hs.
Defined.

Lemma add_never_room (this : WorkingMemory) (c k : string) (p : option Z)
    (t : option (list string)) (e : Env) :
  maxSlots this <= 0 ->
  (List.length (slots this) <= 1)%nat ->
  slots (snd (fst (add this c k p t e))) = [fst (fst (add this c k p t e))].
Proof.
  intros HC Hlen.
  destruct (slots this) as [| x [| y l]] eqn:Es; [| | simpl in Hlen; lia].
  - pose proof (add_eq this c k p t e) as E. cbv zeta in E.
    destruct (Z.geb_spec (Z.of_nat (List.length (slots this))) (maxSlots this))
      as [_ | Hlt]; [| rewrite Es in Hlt; simpl in Hlt; lia].
    rewrite E. cbn [fst snd slots].
    rewrite evictLowestValue_empty by exact Es. cbn [fst snd]. rewrite Es.
    reflexivity.
  - apply (add_same_id this c k p t e (id x)).
    + rewrite Es. simpl. lia.
    + rewrite Es. discriminate.
    + rewrite Es. intros z [<- | []]. reflexivity.
Qed.

Lemma step_never_room (op : Op) (this : WorkingMemory) (e : Env) :
  maxSlots this <= 0 ->
  (List.length (slots this) <= 1)%nat ->
  (List.length (slots (fst (step op this e))) <= 1)%nat.
Proof.
  intros HC Hlen. destruct op as [c k p t | i | |]; unfold step; io_step.
  - rewrite add_never_room by assumption. simpl. lia.
  - rewrite access_length. exact Hlen.
  - pose proof (evictLowestValue_length this e). lia.
  - simpl. lia.
Qed.

(** X4.  A store built with a capacity of 0 or less is not kept empty: every
    insert first evicts what the store holds and then appends, so the store
    holds exactly the entry inserted last, one entry more than a capacity of
    0 allows. *)
Theorem nonpositive_capacity (C : Z) (ops : list Op) (e : Env) :
  C <= 0 ->
  let this := fst (run ops (constructor (Some C)) e) in
  (List.length (slots this) <= 1)%nat
  /\ forall (c k : string) (p : option Z) (t : option (list string))
            (e1 : Env),
       slots (snd (fst (add this c k p t e1)))
       = [fst (fst (add this c k p t e1))].
Proof.
  intros HC this.
  assert (H : forall (w : WorkingMemory) (e0 : Env),
            maxSlots w <= 0 -> (List.length (slots w) <= 1)%nat ->
            maxSlots (fst (run ops w e0)) <= 0
            /\ (List.length (slots (fst (run ops w e0))) <= 1)%nat).
  { induction ops as [| op ops IH]; intros w e0 Hm Hl; [simpl; auto |].
    rewrite run_cons. apply IH.
    - rewrite step_maxSlots. exact Hm.
    - apply step_never_room; assumption. }
  destruct (H (constructor (Some C)) e) as [Hm Hl];
    [exact HC | simpl; lia |].
  fold this in Hm, Hl. split; [exact Hl |].
  intros c k p t e1. apply add_never_room; assumption.
Qed.

Lemma nonpositive_capacity_witness :
  0 <= 0
  /\ (List.length
        (slots (fst (run [OpAdd "one" "task" None None;
                          OpAdd "two" "task" None None]
                         (constructor (Some 0%Z)) ticking))) <= 1)%nat.
Proof.
  split; [lia |].
  destruct (nonpositive_capacity 0
              [OpAdd "one" "task" None None; OpAdd "two" "task" None None]
              ticking) as [H _]; [lia |].
  exact H.
Defined.

(** X5.  What an eviction does to the environment: it reads the clock once per
    live entry, draws no random number, and prints one line, naming the
    evicted entry, exactly when that entry is a decision or an insight. *)
Theorem eviction_footprint (this : WorkingMemory) (e : Env) :
  slots this <> [] ->
  exists evicted,
    fst (fst (evictLowestValue this e)) = Some evicted
    /\ In evicted (slots this)
    /\ snd (evictLowestValue this e)
       = mkEnv (clock e) (entropy e)
               (List.length (slots this) + ticks e) (draws e)
               (console e
                ++ (if String.eqb (category (metaTags evicted)) "decision"
                       || String.eqb (category (metaTags evicted)) "insight"
                    then [("📦 Archiving important memory: "
                           ++ id evicted)%string]
                    else []))%list.
Proof.
  intros Hne.
  destruct (evictLowestValue_nonempty this e Hne) as (first & rest & Hs & Hr).
  destruct (sorted_first_live _ _ _ _ Hs) as (i & Hi & _).
  exists (memory first). rewrite Hr.
  split; [reflexivity |]. split; [exact (nth_error_In _ _ Hi) |].
  unfold evictLowestValue.
  destruct (slots this) as [| m0 l0] eqn:Es; [congruence |].
  cbn [List.length Nat.eqb]. rewrite bind_eq, Hs, bind_eq.
  pose proof (mapM_score_entry_env (m0 :: l0) e) as He.
  unfold ret. cbn [snd].
  destruct (String.eqb (category (metaTags (memory first))) "decision"
            || String.eqb (category (metaTags (memory first))) "insight");
    unfold console_log; cbn [snd]; rewrite He; unfold advance;
    cbn [clock entropy ticks draws console List.length].
  - reflexivity.
  - rewrite app_nil_r. reflexivity.
Qed.

Lemma eviction_footprint_witness :
  exists evicted,
    fst (fst (evictLowestValue
                (mkWorkingMemory 7 [sample "wm_1_a" "decision" 3 0 0 0])
                ticking)) = Some evicted.
Proof.
  destruct (eviction_footprint
              (mkWorkingMemory 7 [sample "wm_1_a" "decision" 3 0 0 0])
              ticking) as (evicted & H & _).
  - discriminate.
  - exists evicted. exact H.
Defined.

Lemma ln_monotone (x y : R) : (0 < x)%R -> (x <= y)%R -> (ln x <= ln y)%R.
Proof.
  intros Hx [Hlt | ->]; [left; apply ln_increasing; assumption | right; reflexivity].
Qed.

Lemma IZR_count_pos (n : nat) : (0 < IZR (Z.of_nat n + 1))%R.
Proof. apply IZR_lt. lia. Qed.

(** X6.  Between two entries of one category last touched at the same time, the
    one with the higher priority and the higher access count never scores
    lower (the category being outside the inherited names). *)
Theorem score_grows_with_priority_and_use (m1 m2 : Memory) (e : Env) :
  inherited (category (metaTags m1)) = false ->
  category (metaTags m1) = category (metaTags m2) ->
  lastAccessed (metadata m1) = lastAccessed (metadata m2) ->
  priority m1 <= priority m2 ->
  (accessCount (metadata m1) <= accessCount (metadata m2))%nat ->
  JS.le (fst (calculateValue m1 e)) (fst (calculateValue m2 e)).
Proof.
  intros Hk Hc Hl Hp Hn.
  rewrite !calculateValue_is_spec_score by (rewrite <- ?Hc; exact Hk).
  unfold JS.le, spec_score. rewrite Hc, Hl.
  assert (Hln : (ln (IZR (Z.of_nat (accessCount (metadata m1)) + 1))
                 <= ln (IZR (Z.of_nat (accessCount (metadata m2)) + 1)))%R).
  { apply ln_monotone; [apply IZR_count_pos | apply IZR_le; lia]. }
  assert (Hpr : (IZR (priority m1) <= IZR (priority m2))%R)
    by (apply IZR_le; exact Hp).
  lra.
Qed.

Lemma score_grows_with_priority_and_use_witness :
  JS.le (fst (calculateValue (sample "wm_1_a" "task" 3 0 0 0) ticking))
        (fst (calculateValue (sample "wm_2_b" "task" 5 0 0 2) ticking)).
Proof.
  apply (score_grows_with_priority_and_use
           (sample "wm_1_a" "task" 3 0 0 0) (sample "wm_2_b" "task" 5 0 0 2)
           ticking); try reflexivity.
  - cbn. lia.
  - cbn. lia.
Defined.



(* ================================================================== *)
(** ** list *)

Lemma mapM_valued_entries (toFixed : JS.number -> nat -> string)
    (l : list Memory) :
  forall e : Env,
    map fst (fst (mapM (fun m => v <- calculateValue m ;; ret (m, toFixed v 3%nat))
                       l e)) = l
    /\ snd (mapM (fun m => v <- calculateValue m ;; ret (m, toFixed v 3%nat)) l e)
       = advance (List.length l) e
    /\ forall j x s,
         nth_error (fst (mapM (fun m => v <- calculateValue m ;;
                                        ret (m, toFixed v 3%nat)) l e)) j
         = Some (x, s) ->
         nth_error l j = Some x /\ s = toFixed (score_now e j x) 3%nat.
Proof.
  set (f := fun m : Memory => v <- calculateValue m ;; ret (m, toFixed v 3%nat)).
  assert (Hf : forall y e, f y e
                           = ((y, toFixed (score_now e 0 y) 3%nat), advance 1 e)).
  { intros y e. unfold f. rewrite bind_eq. unfold ret, score_now.
    rewrite advance_0, calculateValue_env. reflexivity. }
  clearbody f.
  induction l as [| y l IH]; intros e.
  - cbn. rewrite advance_0. repeat split; auto; destruct j; discriminate.
  - rewrite mapM_cons, Hf. cbn [fst snd].
    destruct (IH (advance 1 e)) as (Hm & He & Hn).
    split; [cbn [map fst]; rewrite Hm; reflexivity |].
    split; [rewrite He, advance_advance, Nat.add_1_r; reflexivity |].
    intros [| j] x s Hj; cbn [nth_error] in Hj.
    + injection Hj as <- <-. split; reflexivity.
    + destruct (Hn j x s Hj) as [Hx ->]. split; [exact Hx |].
      rewrite score_now_advance. reflexivity.
Qed.

(** X8.  Without [verbose], [list] returns the array of the store and reads
    nothing.  With [verbose], it returns one item per live entry, in store
    order, each with the text of the entry's score to three decimals
    computed at its own reading of the clock. *)
Theorem list_follows_store (toFixed : JS.number -> nat -> string)
    (this : WorkingMemory) (e : Env) :
  list_ toFixed this None e = (Entries (slots this), e)
  /\ list_ toFixed this (Some false) e = (Entries (slots this), e)
  /\ exists l,
       list_ toFixed this (Some true) e
       = (Valued l, advance (List.length (slots this)) e)
       /\ map fst l = slots this
       /\ forall j x s, nth_error l j = Some (x, s) ->
                        nth_error (slots this) j = Some x
                        /\ s = toFixed (score_now e j x) 3%nat.
Proof.
  split; [reflexivity |]. split; [reflexivity |].
  destruct (mapM_valued_entries toFixed (slots this) e) as (Hm & He & Hn).
  eexists. split; [| split; [exact Hm | exact Hn]].
  unfold list_. rewrite bind_eq, He. reflexivity.
Qed.

(* ================================================================== *)
(** ** The format of the identifiers *)

Lemma string_of_uint_plain (d : Decimal.uint) :
  plain (NilEmpty.string_of_uint d).
Proof.
  unfold plain.
  induction d; cbn; intros c H; try contradiction;
    destruct H as [<- | H]; try discriminate; auto.
Qed.

Lemma ToString_plain (z : Z) : plain (JS.ToString z).
Proof.
  unfold JS.ToString, NilZero.string_of_int, NilZero.string_of_uint.
  destruct (Z.to_int z) as [d | d]; destruct d;
    try apply string_of_uint_plain;
    intros c H; cbn in H;
    repeat (destruct H as [<- | H]; [discriminate |]);
    try contradiction;
    try exact (string_of_uint_plain _ c H).
Qed.

Lemma ToString_injective (x y : Z) : JS.ToString x = JS.ToString y -> x = y.
Proof.
  unfold JS.ToString. intros H.
  apply DecimalZ.to_int_inj.
  assert (Hnn : forall z, Z.to_int z <> Decimal.Pos Decimal.Nil
                          /\ Z.to_int z <> Decimal.Neg Decimal.Nil).
  { intros [| q | q]; cbn; split; try discriminate;
      intros E; injection E as E;
      exact (DecimalPos.Unsigned.to_uint_nonnil q E). }
  destruct (Hnn x) as [Hx1 Hx2], (Hnn y) as [Hy1 Hy2].
  pose proof (NilZero.isi _ Hx1 Hx2) as Ex.
  pose proof (NilZero.isi _ Hy1 Hy2) as Ey.
  rewrite H in Ex. rewrite Ex in Ey. injection Ey as Ey. exact Ey.
Qed.

(** Two texts [s_r] with plain heads are equal only if the heads and the
    tails are. *)
Lemma split_at_separator (s1 : string) :
  forall s2 r1 r2 : string,
    plain s1 -> plain s2 ->
    s1 ++ "_" ++ r1 = s2 ++ "_" ++ r2 -> s1 = s2 /\ r1 = r2.
Proof.
  induction s1 as [| a s1 IH]; intros s2 r1 r2 H1 H2 E.
  - destruct s2 as [| b s2]; cbn in E.
    + injection E as E. auto.
    + injection E as Eb _. exfalso. apply (H2 b); [left; reflexivity |].
      symmetry. exact Eb.
  - destruct s2 as [| b s2]; cbn in E.
    + injection E as Ea _. exfalso. apply (H1 a); [left; reflexivity |].
      exact Ea.
    + injection E as <- E.
      destruct (IH s2 r1 r2) as [-> ->]; auto.
      * intros c Hc. apply H1. right. exact Hc.
      * intros c Hc. apply H2. right. exact Hc.
Qed.

Lemma next_id_equal (e1 e2 : Env) :
  next_id e1 = next_id e2 <->
  clock e1 (ticks e1) = clock e2 (ticks e2)
  /\ JS.substring (entropy e1 (draws e1)) 7 None
     = JS.substring (entropy e2 (draws e2)) 7 None.
Proof.
  unfold next_id. split.
  - intros E. cbn [String.append] in E. injection E as E.
    apply split_at_separator in E; try apply ToString_plain.
    destruct E as [Ec Er]. split; [apply ToString_injective; exact Ec | exact Er].
  - intros [-> ->]. reflexivity.
Qed.

(** X9.  Two inserts, into any stores, give their entries the same identifier
    exactly when they read the same clock value and draw random texts that
    agree from the eighth character on.  An identifier made by
    [generateTaskId] is never the identifier of an entry. *)
Theorem identifiers_collide_exactly_when (this1 this2 : WorkingMemory)
    (c1 k1 c2 k2 : string) (p1 p2 : option Z) (t1 t2 : option (list string))
    (e1 e2 : Env) :
  (id (fst (fst (add this1 c1 k1 p1 t1 e1)))
   = id (fst (fst (add this2 c2 k2 p2 t2 e2)))
   <-> clock e1 (ticks e1) = clock e2 (ticks e2)
       /\ JS.substring (entropy e1 (draws e1)) 7 None
          = JS.substring (entropy e2 (draws e2)) 7 None)
  /\ fst (Tool.generateTaskId e1) <> id (fst (fst (add this2 c2 k2 p2 t2 e2))).
Proof.
  destruct (add_entry this1 c1 k1 p1 t1 e1) as [-> _].
  destruct (add_entry this2 c2 k2 p2 t2 e2) as [-> _].
  split; [apply next_id_equal |].
  unfold Tool.generateTaskId, next_id. rewrite !bind_eq. unfold ret.
  cbn [fst]. discriminate.
Qed.

(* ================================================================== *)
(** ** The [add] and [access] cases of [elvis_memory] *)

Lemma preview_entry_eq (x : Memory) (e : Env) :
  Tool.preview_entry x e = (Tool.mkPreview x (score_now e 0 x), advance 1 e).
Proof.
  unfold Tool.preview_entry. rewrite bind_eq. unfold ret, score_now.
  rewrite advance_0, calculateValue_env. reflexivity.
Qed.

(** The array scored by the case is the array scored by
    [evictLowestValue], read at the same moment. *)
Lemma mapM_preview_entry (l : list Memory) :
  forall e : Env,
    mapM Tool.preview_entry l e
    = (map (fun s => Tool.mkPreview (memory s) (score s))
           (fst (mapM score_entry l e)),
       advance (List.length l) e).
Proof.
  induction l as [| x l IH]; intros e.
  - cbn. rewrite advance_0. reflexivity.
  - rewrite !mapM_cons, preview_entry_eq, score_entry_eq. cbn [fst snd].
    rewrite IH. cbn [fst snd map memory score].
    rewrite advance_advance, Nat.add_1_r. reflexivity.
Qed.

Lemma insert_map {A B : Type} (g : A -> B) (f : B -> B -> JS.number)
    (x : A) (l : list A) :
  JS.insert f (g x) (map g l)
  = map g (JS.insert (fun a b => f (g a) (g b)) x l).
Proof.
  induction l as [| y l IH]; [reflexivity |].
  cbn. destruct (JS.negative (f (g y) (g x))); cbn; [rewrite IH |]; reflexivity.
Qed.

Lemma sort_map {A B : Type} (g : A -> B) (f : B -> B -> JS.number)
    (l : list A) :
  JS.sort f (map g l) = map g (JS.sort (fun a b => f (g a) (g b)) l).
Proof.
  induction l as [| x l IH]; [reflexivity |].
  cbn. rewrite IH. apply insert_map.
Qed.

Lemma sort_preview (l : list Scored) :
  JS.sort Tool.byValue (map (fun s => Tool.mkPreview (memory s) (score s)) l)
  = map (fun s => Tool.mkPreview (memory s) (score s)) (JS.sort byScore l).
Proof. apply (sort_map (fun s => Tool.mkPreview (memory s) (score s))). Qed.

Lemma memory_add_rejected (content_ category_ : option string)
    (priority_ : option Z) (w : WorkingMemory) (e : Env) :
  Tool.present content_ = None \/ Tool.present category_ = None ->
  Tool.memory_add content_ category_ priority_ w e
  = (Tool.reply "Error: content and category are required for add action",
     w, e).
Proof.
  unfold Tool.memory_add.
  intros [-> | H]; [reflexivity |].
  rewrite H. destruct (Tool.present content_); reflexivity.
Qed.

Lemma memory_add_room (content_ category_ : option string)
    (priority_ : option Z) (w : WorkingMemory) (e : Env) (c k : string) :
  Tool.present content_ = Some c ->
  Tool.present category_ = Some k ->
  Z.of_nat (List.length (slots w)) < maxSlots w ->
  Tool.memory_add content_ category_ priority_ w e
  = (Tool.reply
       (added_text
          (fst (fst (add w c k (Some (priority_or_5 priority_))
                         (Some ["manual"]) e))) k None),
     snd (fst (add w c k (Some (priority_or_5 priority_)) (Some ["manual"]) e)),
     snd (add w c k (Some (priority_or_5 priority_)) (Some ["manual"]) e)).
Proof.
  intros Hc Hk Hroom. unfold Tool.memory_add. rewrite Hc, Hk.
  destruct (Z.geb_spec (Z.of_nat (List.length (slots w))) (maxSlots w));
    [lia |].
  rewrite bind_eq. unfold ret at 1. cbn [fst snd]. rewrite bind_eq.
  reflexivity.
Qed.

Lemma memory_add_full (content_ category_ : option string)
    (priority_ : option Z) (w : WorkingMemory) (e : Env) (c k : string) :
  Tool.present content_ = Some c ->
  Tool.present category_ = Some k ->
  maxSlots w <= Z.of_nat (List.length (slots w)) ->
  slots w <> [] ->
  exists first rest,
    JS.sort byScore (fst (mapM score_entry (slots w) e)) = first :: rest
    /\ Tool.memory_add content_ category_ priority_ w e
       = (Tool.reply
            (added_text
               (fst (fst (add w c k (Some (priority_or_5 priority_))
                              (Some ["manual"])
                              (advance (List.length (slots w)) e))))
               k (Some (memory first))),
          snd (fst (add w c k (Some (priority_or_5 priority_))
                        (Some ["manual"])
                        (advance (List.length (slots w)) e))),
          snd (add w c k (Some (priority_or_5 priority_)) (Some ["manual"])
                   (advance (List.length (slots w)) e))).
Proof.
  intros Hc Hk Hfull Hne.
  destruct (evictLowestValue_nonempty w e Hne) as (first & rest & Hs & _).
  exists first, rest. split; [exact Hs |].
  unfold Tool.memory_add. rewrite Hc, Hk.
  destruct (Z.geb_spec (Z.of_nat (List.length (slots w))) (maxSlots w));
    [| lia].
  rewrite !bind_eq, mapM_preview_entry. cbn [fst snd].
  rewrite sort_preview, Hs. cbn [map]. unfold ret at 1. cbn [fst snd Tool.m].
  rewrite bind_eq. reflexivity.
Qed.

(** X10.  The [add] case refuses a missing or empty content or category with an
    error text, leaving the store and the environment as they are.
    Otherwise it stores an entry with the tag ['manual'], the given
    category, the first 200 characters of the content, and the priority
    [priority || 5] clamped to [1, 7]: a priority that is omitted or 0 is
    stored as 5, not as 1. *)
Theorem memory_add_checks_and_defaults (content_ category_ : option string)
    (priority_ : option Z) (w : WorkingMemory) (e : Env) :
  (Tool.present content_ = None \/ Tool.present category_ = None ->
   Tool.memory_add content_ category_ priority_ w e
   = (Tool.reply "Error: content and category are required for add action",
      w, e))
  /\ (forall c k : string,
        Tool.present content_ = Some c ->
        Tool.present category_ = Some k ->
        slots w <> [] \/ 0 < maxSlots w ->
        exists stored before,
          slots (snd (fst (Tool.memory_add content_ category_ priority_ w e)))
          = (before ++ [stored])%list
          /\ content stored = JS.substring c 0 (Some 200%nat)
          /\ category (metaTags stored) = k
          /\ systemTags stored = ["manual"]
          /\ priority stored
             = match priority_ with
               | None => 5
               | Some p => if p =? 0 then 5 else Z.min (Z.max p 1) 7
               end).
Proof.
  split; [apply memory_add_rejected |].
  intros c k Hc Hk Hok.
  assert (Hentry : forall e0,
    let x := fst (fst (add w c k (Some (priority_or_5 priority_))
                           (Some ["manual"]) e0)) in
    content x = JS.substring c 0 (Some 200%nat)
    /\ category (metaTags x) = k
    /\ systemTags x = ["manual"]
    /\ priority x = match priority_ with
                    | None => 5
                    | Some p => if p =? 0 then 5 else Z.min (Z.max p 1) 7
                    end).
  { intros e0 x.
    destruct (add_entry w c k (Some (priority_or_5 priority_))
                (Some ["manual"]) e0) as (_ & Hp & Hco & Hca & Ht & _).
    fold x in Hp, Hco, Hca, Ht.
    repeat split; try assumption.
    rewrite Hp. unfold priority_or_5.
    destruct priority_ as [p |]; [| reflexivity].
    destruct (p =? 0); reflexivity. }
  destruct (Z_lt_le_dec (Z.of_nat (List.length (slots w))) (maxSlots w))
    as [Hroom | Hfull].
  - rewrite (memory_add_room _ _ _ _ _ c k Hc Hk Hroom). cbn [fst snd].
    destruct (add_slots w c k (Some (priority_or_5 priority_))
                (Some ["manual"]) e) as [q Hq].
    eexists. exists (filter q (slots w)). split; [exact Hq |].
    apply Hentry.
  - assert (Hne : slots w <> []).
    { destruct Hok as [H | H]; [exact H |].
      intros E. rewrite E in Hfull. simpl in Hfull. lia. }
    destruct (memory_add_full _ _ priority_ _ e c k Hc Hk Hfull Hne)
      as (first & rest & _ & ->).
    cbn [fst snd].
    destruct (add_slots w c k (Some (priority_or_5 priority_))
                (Some ["manual"]) (advance (List.length (slots w)) e))
      as [q Hq].
    eexists. exists (filter q (slots w)). split; [exact Hq |].
    apply Hentry.
Qed.

(** An empty content, and a priority of 0. *)
Lemma memory_add_checks_and_defaults_witness :
  Tool.memory_add (Some "") (Some "task") (Some 4) (constructor None) ticking
  = (Tool.reply "Error: content and category are required for add action",
     constructor None, ticking)
  /\ exists stored before,
       slots (snd (fst (Tool.memory_add (Some "note") (Some "task") (Some 0)
                                        (constructor None) ticking)))
       = (before ++ [stored])%list
       /\ priority stored = 5.
Proof.
  split.
  - apply (proj1 (memory_add_checks_and_defaults (Some "") (Some "task")
                    (Some 4) (constructor None) ticking)).
    left. reflexivity.
  - destruct (proj2 (memory_add_checks_and_defaults (Some "note")
                       (Some "task") (Some 0) (constructor None) ticking)
                    "note" "task" eq_refl eq_refl)
      as (stored & before & Hs & _ & _ & _ & Hp).
    + right. simpl. lia.
    + exists stored, before. split; [exact Hs | exact Hp].
Defined.






(* ================================================================== *)
(** ** Texts stored by [elvis_result] and [elvis_analyze_screen] *)












(* ================================================================== *)
(** ** The store behind the request handler *)

(** A request leaves the store as it is or changes it by one operation of
    the class, started in some environment. *)
Lemma serve_is_a_step (toFixed : JS.number -> nat -> string) (q : Request)
    (w : WorkingMemory) (e : Env) :
  fst (serve toFixed q w e) = w
  \/ exists op e', fst (serve toFixed q w e) = fst (step op w e').
Proof.
  destruct q as [c_ k_ p_ | i_ | | tasks i | p_ x_ | p x c]; unfold serve;
    rewrite ?bind_eq; unfold ret; cbn [fst snd].
  - destruct (Tool.present c_) as [c |] eqn:Hc;
      [| left; rewrite memory_add_rejected by auto; reflexivity].
    destruct (Tool.present k_) as [k |] eqn:Hk;
      [| left; rewrite memory_add_rejected by auto; reflexivity].
    destruct (Z_lt_le_dec (Z.of_nat (List.length (slots w))) (maxSlots w))
      as [Hroom | Hfull].
    + right. exists (OpAdd c k (Some (priority_or_5 p_)) (Some ["manual"])), e.
      rewrite (memory_add_room _ _ _ _ _ c k Hc Hk Hroom).
      unfold step. rewrite bind_eq. reflexivity.
    + destruct (slots w) as [| x0 l0] eqn:Es.
      * left. unfold Tool.memory_add. rewrite Hc, Hk, Es.
        destruct (Z.geb_spec (Z.of_nat (@List.length Memory [])) (maxSlots w))
          as [_ | Hlt]; [| lia].
        reflexivity.
      * right.
        destruct (memory_add_full _ _ p_ w e c k Hc Hk) as (f & r & _ & ->);
          [rewrite Es; exact Hfull | rewrite Es; discriminate |].
        exists (OpAdd c k (Some (priority_or_5 p_)) (Some ["manual"])),
               (advance (List.length (slots w)) e).
        unfold step. rewrite bind_eq. reflexivity.
  - unfold Tool.memory_access.
    destruct (Tool.present i_) as [i |]; [| left; reflexivity].
    right. exists (OpAccess i), e. unfold step. rewrite !bind_eq.
    destruct (fst (fst (access w i e))); reflexivity.
  - right. exists OpClear, e. reflexivity.
  - unfold Delegate.elvis_result.
    destruct (Delegate.get tasks i) as [t |]; [| left; reflexivity].
    destruct (negb (String.eqb (Delegate.status t) "completed"));
      [left; reflexivity |].
    destruct (Delegate.result t) as [answer |]; [| left; reflexivity].
    right. eexists (OpAdd _ _ _ _), e. unfold step. rewrite !bind_eq.
    reflexivity.
  - right. unfold Screen.analyze_begin.
    eexists (OpAdd _ _ _ _), e. unfold step. reflexivity.
  - unfold Screen.analyze_resume.
    destruct (negb (Screen.success c)); [left; reflexivity |].
    destruct (Screen.analysis c) as [answer |]; [| left; reflexivity].
    right. eexists (OpAdd _ _ _ _), e. unfold step. rewrite !bind_eq.
    reflexivity.
Qed.

Lemma serve_all_cons (toFixed : JS.number -> nat -> string) (q : Request)
    (qs : list Request) (w : WorkingMemory) (e : Env) :
  serve_all toFixed (q :: qs) w e
  = serve_all toFixed qs (fst (serve toFixed q w e))
              (snd (serve toFixed q w e)).
Proof. simpl. rewrite bind_eq. reflexivity. Qed.

(** X15.  Whatever requests the handler serves, one after the other, on a store
    built with a capacity [C >= 1] (the server builds it with 7): the store
    keeps its capacity, never holds more than [C] entries, and every entry
    it holds has a priority within [1, 7] and at most 200 characters of
    content. *)
Theorem served_store_bounded (toFixed : JS.number -> nat -> string)
    (C : Z) (qs : list Request) (e : Env) :
  1 <= C ->
  let w := fst (serve_all toFixed qs (constructor (Some C)) e) in
  maxSlots w = C
  /\ Z.of_nat (List.length (slots w)) <= C
  /\ Forall well_formed (slots w).
Proof.
  intros HC.
  assert (H : forall (w0 : WorkingMemory) (e0 : Env),
            maxSlots w0 = C -> within_capacity w0 ->
            Forall well_formed (slots w0) ->
            maxSlots (fst (serve_all toFixed qs w0 e0)) = C
            /\ within_capacity (fst (serve_all toFixed qs w0 e0))
            /\ Forall well_formed (slots (fst (serve_all toFixed qs w0 e0)))).
  { induction qs as [| q qs IH]; intros w0 e0 Hm Hb Hw; [simpl; auto |].
    rewrite serve_all_cons.
    destruct (serve_is_a_step toFixed q w0 e0) as [-> | (op & e' & ->)].
    - apply IH; assumption.
    - apply IH.
      + rewrite step_maxSlots. exact Hm.
      + apply step_within_capacity; [rewrite Hm; exact HC | exact Hb].
      + apply step_well_formed. exact Hw. }
  destruct (H (constructor (Some C)) e) as (Hm & Hb & Hw).
  - reflexivity.
  - unfold within_capacity. simpl. lia.
  - simpl. constructor.
  - intros w. fold w in Hm, Hb, Hw. unfold within_capacity in Hb.
    rewrite Hm in Hb. auto.
Qed.

(** The server's store, after an insert, an access and a clear. *)
Lemma served_store_bounded_witness :
  1 <= 7
  /\ Z.of_nat
       (List.length
          (slots
             (fst (serve_all (fun _ _ => "0.500")
                     [MemoryAdd (Some "note") (Some "task") None;
                      MemoryAccess (Some "wm_9_z");
                      MemoryClear]
                     (constructor (Some 7)) ticking)))) <= 7.
Proof.
  split; [lia |].
  destruct (served_store_bounded (fun _ _ => "0.500") 7
              [MemoryAdd (Some "note") (Some "task") None;
               MemoryAccess (Some "wm_9_z");
               MemoryClear]
              ticking) as (_ & H & _); [lia |].
  exact H.
Defined.

(* ================================================================== *)
(** ** What decides a tie *)




